(** * Panopto transcript scraper: the pure core of [scraper.py]

    A shallow embedding of the functions of [scraper.py] that do not drive
    the browser, and the properties of them that the specification states.

    Conventions of the embedding.
    - A Python [str] is a list of Unicode code points ([pystr := list N]).
      String literals of the source are written [py "..."].
    - [None] is [None] of [option]; Python truthiness of a string is
      non-emptiness ([truthy]).
    - The only exception the modelled code can raise is the [ValueError] of
      [urllib.parse.urlsplit]; fallible code returns a [result].
    - The file system is a finite map from paths to the text of regular files
      with a finite set of directories.  Failures of the operating system
      (permissions, a directory where a file is expected, text that UTF-8
      cannot encode) are outside the model: [open], [read], [write] and
      [mkdir] succeed.  [os.linesep] is the POSIX one.
    - [urllib.parse] is embedded as of CPython 3.12.  The big tables of the
      Python runtime (lower-casing and decimal digits beyond ASCII, NFKC
      normalization, the host validation of [ipaddress]) are the fields of
      the class [Library]; every statement holds for every instance.
    - [print] statements are omitted. *)

From Stdlib Require Import NArith List Ascii String Lia Bool.
From Stdlib Require Import DecimalString DecimalN.
From stdpp Require Import base option list gmap sets.

Local Open Scope N_scope.

(** ** Python strings *)

Definition pystr := list N.

Definition py (s : string) : pystr := map N_of_ascii (list_ascii_of_string s).
Arguments py s%_string : simpl never.

Definition truthy (s : pystr) : bool :=
  match s with [] => false | _ :: _ => true end.

Definition opt_truthy (o : option pystr) : bool :=
  match o with Some s => truthy s | None => false end.

(** [Py_UNICODE_ISSPACE]: the characters [str.strip()] removes. *)
Definition is_space (c : N) : bool :=
  ((0x09 <=? c) && (c <=? 0x0D)) || ((0x1C <=? c) && (c <=? 0x1F))
  || (c =? 0x20) || (c =? 0x85) || (c =? 0xA0) || (c =? 0x1680)
  || ((0x2000 <=? c) && (c <=? 0x200A)) || (c =? 0x2028) || (c =? 0x2029)
  || (c =? 0x202F) || (c =? 0x205F) || (c =? 0x3000).

(** [Py_UNICODE_ISLINEBREAK]: the line boundaries of [str.splitlines()]. *)
Definition is_linebreak (c : N) : bool :=
  ((0x0A <=? c) && (c <=? 0x0D)) || ((0x1C <=? c) && (c <=? 0x1E))
  || (c =? 0x85) || (c =? 0x2028) || (c =? 0x2029).

Definition LF : N := 0x0A.
Definition CR : N := 0x0D.

Definition is_ascii (c : N) : bool := c <? 128.
Definition is_ascii_digit (c : N) : bool := (48 <=? c) && (c <=? 57).
Definition is_ascii_upper (c : N) : bool := (65 <=? c) && (c <=? 90).
Definition is_ascii_lower (c : N) : bool := (97 <=? c) && (c <=? 122).
Definition is_ascii_alpha (c : N) : bool := is_ascii_upper c || is_ascii_lower c.
Definition is_ascii_alnum (c : N) : bool := is_ascii_alpha c || is_ascii_digit c.
Definition is_hex (c : N) : bool :=
  is_ascii_digit c || ((97 <=? c) && (c <=? 102)) || ((65 <=? c) && (c <=? 70)).

Definition ascii_lower (c : N) : N := if is_ascii_upper c then c + 32 else c.

(** What the modelled code takes from the Python runtime without this
    repository defining it. *)
Class Library := {
  (** [str.lower()] on a string that has a character outside ASCII *)
  unicode_lower : pystr → pystr;
  (** the decimal digits (category Nd) outside ASCII, which [\d] matches *)
  unicode_decimal : N → bool;
  (** [unicodedata.normalize("NFKC", s)] *)
  nfkc : pystr → pystr;
  (** whether [urllib.parse._check_bracketed_host] accepts a host name, which
      it decides with [ipaddress] *)
  bracketed_host_ok : pystr → bool
}.

(** An instance to run the definitions with: no lower-casing, no digit and
    no normalization outside ASCII, every bracketed host accepted. *)
Definition ascii_library : Library :=
  {| unicode_lower := λ s, s;
     unicode_decimal := λ _, false;
     nfkc := λ s, s;
     bracketed_host_ok := λ _, true |}.

Section Strings.
Context `{Library}.

(** [str.lower()] *)
Definition lower (s : pystr) : pystr :=
  if forallb is_ascii s then map ascii_lower s else unicode_lower s.

(** the class [\d] of [re] on [str] patterns *)
Definition is_digit (c : N) : bool :=
  if is_ascii c then is_ascii_digit c else unicode_decimal c.

End Strings.

(** [s.lstrip(chars)], [s.rstrip(chars)], [s.strip(chars)] for the set of
    characters [p]. *)
Fixpoint lstrip_by (p : N → bool) (s : pystr) : pystr :=
  match s with
  | [] => []
  | c :: s' => if p c then lstrip_by p s' else s
  end.

Definition rstrip_by (p : N → bool) (s : pystr) : pystr :=
  reverse (lstrip_by p (reverse s)).

Definition strip_by (p : N → bool) (s : pystr) : pystr :=
  rstrip_by p (lstrip_by p s).

(** [s.strip()] *)
Definition strip (s : pystr) : pystr := strip_by is_space s.

(** [sep.join(l)] *)
Fixpoint join (sep : pystr) (l : list pystr) : pystr :=
  match l with
  | [] => []
  | [x] => x
  | x :: l' => x ++ sep ++ join sep l'
  end.

(** [s.splitlines()]: [cur] is the line being read, reversed; [after_cr]
    says that the previous character was a carriage return, so that a line
    feed here belongs to the same boundary. *)
Fixpoint splitlines_from (after_cr : bool) (cur : pystr) (s : pystr)
  : list pystr :=
  match s with
  | [] => if truthy cur then [reverse cur] else []
  | c :: s' =>
      if after_cr && (c =? LF) then splitlines_from false cur s'
      else if is_linebreak c then reverse cur :: splitlines_from (c =? CR) [] s'
      else splitlines_from false (c :: cur) s'
  end.

Definition splitlines (s : pystr) : list pystr := splitlines_from false [] s.

(** [s.split(sep)] for a separator of one character: never empty. *)
Fixpoint split_on (sep : N) (s : pystr) : list pystr :=
  match s with
  | [] => [[]]
  | c :: s' =>
      if c =? sep then [] :: split_on sep s'
      else match split_on sep s' with
           | [] => [[c]]
           | x :: l => (c :: x) :: l
           end
  end.

(** [s.split(sep, 1)]: the part before the first [sep] and, when there is
    one, the part after it. *)
Fixpoint split1 (sep : N) (s : pystr) : pystr * option pystr :=
  match s with
  | [] => ([], None)
  | c :: s' =>
      if c =? sep then ([], Some s')
      else let '(a, b) := split1 sep s' in (c :: a, b)
  end.

(** [c in s] *)
Definition contains (c : N) (s : pystr) : bool := existsb (N.eqb c) s.

(** [str(n)] for a non-negative integer *)
Definition str_of_N (n : N) : pystr :=
  py (NilZero.string_of_uint (N.to_uint n)).

(** ** The patterns *)

Section Patterns.
Context `{Library}.

Definition is_colon (c : N) : bool := c =? 58.

(** The optional group [(?::\d{2})?] followed by the end of the string. *)
Definition seconds_opt (s : pystr) : bool :=
  match s with
  | [] => true
  | [c; e; f] => is_colon c && is_digit e && is_digit f
  | _ => false
  end.

(** [:\d{2}(?::\d{2})?] followed by the end of the string. *)
Definition minutes (s : pystr) : bool :=
  match s with
  | c :: a :: b :: s' => is_colon c && is_digit a && is_digit b && seconds_opt s'
  | _ => false
  end.

(** [TIMESTAMP_PATTERN.fullmatch]: [\d{1,2}:\d{2}(?::\d{2})?].  The colon is
    no digit, so taking one or two digits first is decided by the next
    character. *)
Definition TIMESTAMP_fullmatch (s : pystr) : bool :=
  match s with
  | a :: s1 =>
      is_digit a &&
      match s1 with
      | b :: s2 => if is_digit b then minutes s2 else minutes s1
      | [] => false
      end
  | [] => false
  end.

End Patterns.

(** [n] hexadecimal digits, giving what follows them. *)
Fixpoint hexes (n : nat) (s : pystr) : option pystr :=
  match n with
  | O => Some s
  | S n' => match s with
            | c :: s' => if is_hex c then hexes n' s' else None
            | [] => None
            end
  end.

Definition hyphen : N := 45.

Definition hexes_then_hyphen (n : nat) (s : pystr) : option pystr :=
  match hexes n s with
  | Some (c :: s') => if c =? hyphen then Some s' else None
  | _ => None
  end.

(** [VIDEO_ID_PATTERN.fullmatch]: 8-4-4-4-12 hexadecimal digits. *)
Definition VIDEO_ID_fullmatch (s : pystr) : bool :=
  match
    s1 ← hexes_then_hyphen 8 s;
    s2 ← hexes_then_hyphen 4 s1;
    s3 ← hexes_then_hyphen 4 s2;
    s4 ← hexes_then_hyphen 4 s3;
    hexes 12 s4
  with
  | Some [] => true
  | _ => false
  end.

(** ** [_extract_transcript_line] *)

(** What the function reads of a transcript element of the page. *)
Record element := {
  innerText : option pystr;     (* [element.get_attribute("innerText")] *)
  text : pystr;                 (* [element.text] *)
  textContent : option pystr    (* [element.get_attribute("textContent")] *)
}.

(** [a or b] on optional strings *)
Definition or_else (a b : option pystr) : option pystr :=
  if opt_truthy a then a else b.

Definition element_raw_text (e : element) : pystr :=
  let raw_text := innerText e in
  if negb (opt_truthy raw_text)
  then default [] (or_else (or_else (Some (text e)) (textContent e)) (Some []))
  else default [] raw_text.

Section Transcript.
Context `{Library}.

(** [piece.lower() in {"retry", "cancel"}] *)
Definition is_noise (piece : pystr) : bool :=
  bool_decide (lower piece = py "retry") || bool_decide (lower piece = py "cancel").

(** The loop [for idx in range(len(pieces) - 1, -1, -1)]: [n] is one more
    than the next index; the first match is popped and ends the loop. *)
Fixpoint pop_timestamp (n : nat) (pieces : list pystr)
  : option pystr * list pystr :=
  match n with
  | O => (None, pieces)
  | S idx =>
      match pieces !! idx with
      | Some piece =>
          if TIMESTAMP_fullmatch piece then (Some piece, delete idx pieces)
          else pop_timestamp idx pieces
      | None => pop_timestamp idx pieces
      end
  end.

(** The body of [_extract_transcript_line] from [raw_text] on. *)
Definition clean_transcript_text (raw_text : pystr) : option pystr :=
  let pieces := map strip (splitlines raw_text) in
  let pieces :=
    List.filter (λ piece, truthy piece && negb (is_noise piece)) pieces in
  if negb (bool_decide (pieces ≠ [])) then None
  else
    let '(timestamp, pieces) := pop_timestamp (length pieces) pieces in
    let text := strip (join (py " ") pieces) in
    if negb (truthy text) then None
    else Some (if opt_truthy timestamp
               then default [] timestamp ++ py " " ++ text
               else text).

Definition _extract_transcript_line (e : element) : option pystr :=
  clean_transcript_text (element_raw_text e).

End Transcript.

(** ** [_slugify] *)

(** [re.sub(r"[^A-Za-z0-9]+", "-", text)]: [in_run] says that the previous
    character was replaced already. *)
Fixpoint sub_non_alnum (in_run : bool) (s : pystr) : pystr :=
  match s with
  | [] => []
  | c :: s' =>
      if is_ascii_alnum c then c :: sub_non_alnum false s'
      else if in_run then sub_non_alnum true s'
      else hyphen :: sub_non_alnum true s'
  end.

Definition is_hyphen (c : N) : bool := c =? hyphen.

Definition _slugify (text : pystr) : pystr :=
  let slug := strip_by is_hyphen (sub_non_alnum false text) in
  if truthy (take 80 slug) then take 80 slug else py "transcript".

(** ** Exceptions *)

Inductive exn := ValueError.

Inductive result (A : Type) :=
  | Ok (a : A)
  | Raise (e : exn).
Arguments Ok {A} a.
Arguments Raise {A} e.

#[global] Instance result_bind : MBind result := λ A B k r,
  match r with
  | Ok a => k a
  | Raise e => Raise e
  end.

(** ** [urllib.parse] *)

Module urllib.

(** [s.rsplit(sep, 1)]: the parts before and after the last [sep]. *)
Definition rsplit1 (sep : N) (s : pystr) : option pystr * pystr :=
  let '(a, b) := split1 sep (reverse s) in (option_map reverse b, reverse a).

(** [s.replace(c, "")] *)
Definition remove_char (c : N) (s : pystr) : pystr :=
  List.filter (λ x, negb (x =? c)) s.

(** [s.replace(a, b)] for single characters *)
Definition replace_char (a b : N) (s : pystr) : pystr :=
  map (λ x, if x =? a then b else x) s.

(** The longest prefix without a character of [p], and the rest. *)
Fixpoint break_at (p : N → bool) (s : pystr) : pystr * pystr :=
  match s with
  | [] => ([], [])
  | c :: s' =>
      if p c then ([], s)
      else let '(a, b) := break_at p s' in (c :: a, b)
  end.

Definition is_c0_control_or_space (c : N) : bool := c <=? 0x20.

Definition is_scheme_char (c : N) : bool :=
  is_ascii_alnum c || (c =? 43) || (c =? 45) || (c =? 46).

Definition is_netloc_delim (c : N) : bool :=
  (c =? 47) || (c =? 63) || (c =? 35).

(** [_splitnetloc(url, 2)] *)
Definition _splitnetloc (url : pystr) : pystr * pystr :=
  break_at is_netloc_delim (drop 2 url).

Definition uses_params : list pystr :=
  [py ""; py "ftp"; py "hdl"; py "prospero"; py "http"; py "imap";
   py "https"; py "shttp"; py "rtsp"; py "rtspu"; py "sip"; py "sips";
   py "mms"; py "sftp"; py "tel"].

Record SplitResult := {
  split_scheme : pystr;
  split_netloc : pystr;
  split_path : pystr;
  split_query : pystr;
  split_fragment : pystr
}.

Record ParseResult := {
  scheme : pystr;
  netloc : pystr;
  path : pystr;
  params : pystr;
  query : pystr;
  fragment : pystr
}.

Section Parse.
Context `{Library}.

(** [_check_bracketed_netloc]: [true] when it does not raise. *)
Definition _check_bracketed_netloc (netloc : pystr) : bool :=
  let hostname_and_port := (rsplit1 64 netloc).2 in
  match split1 91 hostname_and_port with
  | (before_bracket, Some bracketed) =>
      if truthy before_bracket then false
      else
        let '(hostname, port) := split1 93 bracketed in
        let port := default [] port in
        if truthy port && negb (bool_decide (head port = Some 58)) then false
        else bracketed_host_ok hostname
  | (_, None) =>
      bracketed_host_ok (split1 58 hostname_and_port).1
  end.

(** [_checknetloc]: [true] when it does not raise. *)
Definition _checknetloc (netloc : pystr) : bool :=
  if negb (truthy netloc) || forallb is_ascii netloc then true
  else
    let n := remove_char 63 (remove_char 35 (remove_char 58
               (remove_char 64 netloc))) in
    let netloc2 := nfkc n in
    if bool_decide (n = netloc2) then true
    else negb (existsb (λ c, contains c netloc2) [47; 63; 35; 64; 58]).

(** [urlsplit(url)] *)
Definition urlsplit (url : pystr) : result SplitResult :=
  let url := lstrip_by is_c0_control_or_space url in
  let url := remove_char 10 (remove_char 13 (remove_char 9 url)) in
  let '(scheme, url) :=
    match split1 58 url with
    | (c :: before, Some after) =>
        if is_ascii c && is_ascii_alpha c
           && forallb is_scheme_char (c :: before)
        then (lower (c :: before), after)
        else ([], url)
    | _ => ([], url)
    end in
  '(netloc, url) ←
    (if bool_decide (take 2 url = py "//") then
       let '(netloc, url) := _splitnetloc url in
       if (contains 91 netloc && negb (contains 93 netloc))
          || (contains 93 netloc && negb (contains 91 netloc))
       then Raise ValueError
       else if contains 91 netloc && contains 93 netloc
               && negb (_check_bracketed_netloc netloc)
       then Raise ValueError
       else Ok (netloc, url)
     else Ok ([], url));
  let '(url, fragment) :=
    match split1 35 url with
    | (a, Some b) => (a, b)
    | (_, None) => (url, [])
    end in
  let '(url, query) :=
    match split1 63 url with
    | (a, Some b) => (a, b)
    | (_, None) => (url, [])
    end in
  if negb (_checknetloc netloc) then Raise ValueError
  else Ok {| split_scheme := scheme; split_netloc := netloc;
             split_path := url; split_query := query;
             split_fragment := fragment |}.

(** [_splitparams(url)] *)
Definition _splitparams (url : pystr) : pystr * pystr :=
  if contains 47 url then
    match rsplit1 47 url with
    | (Some before, last) =>
        match split1 59 last with
        | (a, Some b) => (before ++ [47] ++ a, b)
        | (_, None) => (url, [])
        end
    | (None, _) => (url, [])
    end
  else
    match split1 59 url with
    | (a, Some b) => (a, b)
    | (_, None) => (url, [])
    end.

(** [urlparse(url)] *)
Definition urlparse (url : pystr) : result ParseResult :=
  r ← urlsplit url;
  let '(url, params) :=
    if bool_decide (split_scheme r ∈ uses_params) && contains 59 (split_path r)
    then _splitparams (split_path r)
    else (split_path r, []) in
  Ok {| scheme := split_scheme r; netloc := split_netloc r; path := url;
        params := params; query := split_query r;
        fragment := split_fragment r |}.

End Parse.

(** *** Percent-decoding *)

Definition hex_value (c : N) : N :=
  if is_ascii_digit c then c - 48
  else if (97 <=? c) && (c <=? 102) then c - 87
  else c - 55.

(** [unquote_to_bytes] on an ASCII string *)
Fixpoint unquote_to_bytes (s : pystr) : list N :=
  match s with
  | [] => []
  | c :: s' =>
      if c =? 37 then
        match s' with
        | a :: b :: s'' =>
            if is_hex a && is_hex b
            then (16 * hex_value a + hex_value b) :: unquote_to_bytes s''
            else c :: unquote_to_bytes s'
        | _ => c :: unquote_to_bytes s'
        end
      else c :: unquote_to_bytes s'
  end.

Definition replacement : N := 0xFFFD.

Definition is_cont (b : N) : bool := (0x80 <=? b) && (b <=? 0xBF).

(** The second byte that the lead byte [b0] of a sequence of three or four
    bytes admits. *)
Definition second_ok (b0 b1 : N) : bool :=
  if b0 =? 0xE0 then (0xA0 <=? b1) && (b1 <=? 0xBF)
  else if b0 =? 0xED then (0x80 <=? b1) && (b1 <=? 0x9F)
  else if b0 =? 0xF0 then (0x90 <=? b1) && (b1 <=? 0xBF)
  else if b0 =? 0xF4 then (0x80 <=? b1) && (b1 <=? 0x8F)
  else is_cont b1.

(** [bytes.decode("utf-8", "replace")]: every maximal ill-formed part
    becomes one U+FFFD. *)
Fixpoint utf8_decode (bs : list N) : pystr :=
  match bs with
  | [] => []
  | b0 :: r0 =>
      if b0 <? 0x80 then b0 :: utf8_decode r0
      else if (b0 <? 0xC2) || (0xF4 <? b0) then replacement :: utf8_decode r0
      else if b0 <? 0xE0 then
        match r0 with
        | [] => [replacement]
        | b1 :: r1 =>
            if is_cont b1
            then ((b0 - 0xC0) * 64 + (b1 - 0x80)) :: utf8_decode r1
            else replacement :: utf8_decode r0
        end
      else if b0 <? 0xF0 then
        match r0 with
        | [] => [replacement]
        | b1 :: r1 =>
            if second_ok b0 b1 then
              match r1 with
              | [] => [replacement]
              | b2 :: r2 =>
                  if is_cont b2
                  then ((b0 - 0xE0) * 4096 + (b1 - 0x80) * 64 + (b2 - 0x80))
                       :: utf8_decode r2
                  else replacement :: utf8_decode r1
              end
            else replacement :: utf8_decode r0
        end
      else
        match r0 with
        | [] => [replacement]
        | b1 :: r1 =>
            if second_ok b0 b1 then
              match r1 with
              | [] => [replacement]
              | b2 :: r2 =>
                  if is_cont b2 then
                    match r2 with
                    | [] => [replacement]
                    | b3 :: r3 =>
                        if is_cont b3
                        then ((b0 - 0xF0) * 262144 + (b1 - 0x80) * 4096
                              + (b2 - 0x80) * 64 + (b3 - 0x80))
                             :: utf8_decode r3
                        else replacement :: utf8_decode r2
                    end
                  else replacement :: utf8_decode r1
              end
            else replacement :: utf8_decode r0
        end
  end.

(** The parts of [unquote]: [run] is the ASCII run being read, reversed;
    a run is percent-decoded and then decoded as UTF-8, the characters
    outside ASCII stay. *)
Fixpoint unquote_parts (run : pystr) (s : pystr) : pystr :=
  match s with
  | [] => utf8_decode (unquote_to_bytes (reverse run))
  | c :: s' =>
      if is_ascii c then unquote_parts (c :: run) s'
      else utf8_decode (unquote_to_bytes (reverse run)) ++ c :: unquote_parts [] s'
  end.

(** [unquote(string)] with the defaults [encoding="utf-8"],
    [errors="replace"] *)
Definition unquote (s : pystr) : pystr :=
  if negb (contains 37 s) then s else unquote_parts [] s.

(** [parse_qsl(qs)] with the defaults: blank values are dropped, malformed
    fields are skipped, the separator is [&]. *)
Definition parse_qsl (qs : pystr) : list (pystr * pystr) :=
  flat_map
    (λ name_value,
       if negb (truthy name_value) then []
       else match split1 61 name_value with
            | (name, Some value) =>
                if truthy value
                then [(unquote (replace_char 43 32 name),
                       unquote (replace_char 43 32 value))]
                else []
            | (_, None) => []
            end)
    (split_on 38 qs).

(** [parse_qs(qs)]: the values of a name in the order of the fields. *)
Definition parse_qs (qs : pystr) : gmap pystr (list pystr) :=
  foldl
    (λ parsed_result '(name, value),
       match parsed_result !! name with
       | Some values => <[name := values ++ [value]]> parsed_result
       | None => <[name := [value]]> parsed_result
       end)
    ∅ (parse_qsl qs).

End urllib.

(** ** [_extract_video_id] *)

Section VideoId.
Context `{Library}.

(** The loop over the keys: the first value of the first key whose first
    value has the shape of an identifier. *)
Fixpoint first_query_id (query : gmap pystr (list pystr)) (keys : list pystr)
  : option pystr :=
  match keys with
  | [] => None
  | key :: keys' =>
      match query !! key with
      | Some (candidate :: _) =>
          if truthy candidate && VIDEO_ID_fullmatch candidate
          then Some (lower candidate)
          else first_query_id query keys'
      | _ => first_query_id query keys'
      end
  end.

Definition id_keys : list pystr := [py "id"; py "objectId"; py "contentID"].

(** [parsed.path.rstrip("/").split("/")[-1]] *)
Definition last_segment (path : pystr) : pystr :=
  default [] (last (split_on 47 (rstrip_by (N.eqb 47) path))).

Definition _extract_video_id (url : option pystr) : result (option pystr) :=
  if negb (opt_truthy url) then Ok None
  else
    parsed ← urllib.urlparse (default [] url);
    let query := urllib.parse_qs (urllib.query parsed) in
    match first_query_id query id_keys with
    | Some id => Ok (Some id)
    | None =>
        let last_segment := last_segment (urllib.path parsed) in
        if truthy last_segment && VIDEO_ID_fullmatch last_segment
        then Ok (Some (lower last_segment))
        else Ok None
    end.

End VideoId.

(** ** Paths and the file system *)

(** A [pathlib.Path] of the POSIX flavour: whether it is anchored at the
    root, and its components. *)
Record Path := { absolute : bool; parts : list pystr }.

#[global] Instance Path_eq_dec : EqDecision Path.
Proof. solve_decision. Defined.

#[global] Instance Path_countable : Countable Path :=
  inj_countable' (λ p, (absolute p, parts p))
                 (λ '(a, l), {| absolute := a; parts := l |})
                 (λ p, match p with Build_Path _ _ => eq_refl end).

(** The components of a string as [pathlib] parses it: empty components and
    [.] are dropped. *)
Definition components (s : pystr) : list pystr :=
  List.filter (λ c, truthy c && negb (bool_decide (c = py ".")))
              (split_on 47 s).

(** [p / s] *)
Definition joinpath (p : Path) (s : pystr) : Path :=
  if bool_decide (head s = Some 47)
  then {| absolute := true; parts := components s |}
  else {| absolute := absolute p; parts := parts p ++ components s |}.

(** [p.parent] *)
Definition parent (p : Path) : Path :=
  {| absolute := absolute p; parts := removelast (parts p) |}.

(** [p] and its ancestors *)
Definition lineage (p : Path) : list Path :=
  map (λ n, {| absolute := absolute p; parts := take n (parts p) |})
      (seq 0 (S (length (parts p)))).

Record filesystem := {
  files : gmap Path pystr;   (* the regular files and their text *)
  dirs : gset Path           (* the directories *)
}.

(** [p.exists()] *)
Definition path_exists (fs : filesystem) (p : Path) : bool :=
  bool_decide (p ∈ dom (files fs)) || bool_decide (p ∈ dirs fs).

(** [p.mkdir(parents=True, exist_ok=True)] *)
Definition mkdir_parents (fs : filesystem) (p : Path) : filesystem :=
  {| files := files fs; dirs := dirs fs ∪ list_to_set (lineage p) |}.

(** The text of a file, empty when there is none. *)
Definition read_text (fs : filesystem) (p : Path) : pystr :=
  default [] (files fs !! p).

(** [with p.open("a") as handle: handle.write(s)] *)
Definition append_text (fs : filesystem) (p : Path) (s : pystr) : filesystem :=
  {| files := <[p := read_text fs p ++ s]> (files fs); dirs := dirs fs |}.

(** [os.linesep] *)
Definition linesep : pystr := [LF].

(** The lines that iterating over a file opened for reading yields: the
    endings [\n], [\r] and [\r\n] are all read as [\n], which stays at the
    end of its line. *)
Fixpoint readlines_from (after_cr : bool) (cur : pystr) (s : pystr)
  : list pystr :=
  match s with
  | [] => if truthy cur then [reverse cur] else []
  | c :: s' =>
      if after_cr && (c =? LF) then readlines_from false cur s'
      else if (c =? LF) || (c =? CR)
      then reverse (LF :: cur) :: readlines_from (c =? CR) [] s'
      else readlines_from false (c :: cur) s'
  end.

Definition readlines (s : pystr) : list pystr := readlines_from false [] s.

(** [_ensure_parent_dir] *)
Definition _ensure_parent_dir (fs : filesystem) (path : Path) : filesystem :=
  if negb (path_exists fs (parent path)) then mkdir_parents fs (parent path)
  else fs.

(** ** The state store *)

(** The dictionary [{"ids": set(), "titles": set()}]. *)
Record Records := { ids : gset pystr; titles : gset pystr }.

Definition no_records : Records := {| ids := ∅; titles := ∅ |}.

Definition add_id (r : Records) (i : pystr) : Records :=
  {| ids := ids r ∪ {[ i ]}; titles := titles r |}.

Definition add_title (r : Records) (t : pystr) : Records :=
  {| ids := ids r; titles := titles r ∪ {[ t ]} |}.

Definition bar : N := 124.

Section StateStore.
Context `{Library}.

(** The body of the loop of [_load_scraped_records]. *)
Definition load_line (records : Records) (raw_line : pystr) : Records :=
  let entry := strip raw_line in
  if negb (truthy entry) then records
  else
    let parts := split1 bar entry in
    let candidate := strip parts.1 in
    if VIDEO_ID_fullmatch candidate then
      let records := add_id records (lower candidate) in
      match parts.2 with
      | Some rest =>
          if truthy (strip rest) then add_title records (strip rest)
          else records
      | None => records
      end
    else add_title records entry.

Definition _load_scraped_records (fs : filesystem) (state_path : option Path)
  : Records :=
  match state_path with
  | None => no_records
  | Some state_path =>
      if negb (path_exists fs state_path) then no_records
      else foldl load_line no_records (readlines (read_text fs state_path))
  end.

(** [records] is updated in place and the file system is written: both are
    returned. *)
Definition _append_scraped_record (records : Records) (fs : filesystem)
    (state_path : option Path) (video_id : option pystr) (title : pystr)
  : Records * filesystem :=
  let clean_title := strip title in
  let records :=
    if opt_truthy video_id then add_id records (lower (default [] video_id))
    else records in
  let records :=
    if truthy clean_title then add_title records clean_title else records in
  match state_path with
  | None => (records, fs)
  | Some state_path =>
      let fs := _ensure_parent_dir fs state_path in
      let line :=
        if opt_truthy video_id then
          Some (if truthy clean_title
                then default [] video_id ++ [bar] ++ clean_title
                else default [] video_id)
        else if truthy clean_title then Some clean_title
        else None in
      if opt_truthy line
      then (records, append_text fs state_path (default [] line ++ linesep))
      else (records, fs)
  end.

End StateStore.

(** ** [_build_transcript_path] *)

(** The loop [while path.exists()]; [fuel] bounds the number of tests. *)
Fixpoint next_free_path (fuel : nat) (fs : filesystem) (output_dir : Path)
    (base : pystr) (path : Path) (counter : N) : option Path :=
  match fuel with
  | O => None
  | S fuel' =>
      if path_exists fs path
      then next_free_path fuel' fs output_dir base
             (joinpath output_dir
                (base ++ py "-" ++ str_of_N counter ++ py ".txt"))
             (counter + 1)
      else Some path
  end.

(** The number of entries of the file system: the loop cannot run longer
    than over all of them and one more. *)
Definition entries (fs : filesystem) : nat :=
  size (dom (files fs)) + size (dirs fs).

Definition base_name (title video_id : option pystr) : pystr :=
  let safe_title :=
    _slugify (default [] (or_else title (Some (py "untitled-session")))) in
  let suffix :=
    if opt_truthy video_id then py "-" ++ take 8 (default [] video_id)
    else [] in
  if truthy suffix then safe_title ++ suffix else safe_title.

Definition _build_transcript_path (fs : filesystem) (output_dir : Path)
    (title video_id : option pystr) : filesystem * option Path :=
  let fs := mkdir_parents fs output_dir in
  let base := base_name title video_id in
  let path := joinpath output_dir (base ++ py ".txt") in
  (fs, next_free_path (S (S (entries fs))) fs output_dir base path 1).

(** ** The filter stage of [scrape_panopto_folder] *)

(** The dictionary [{"title": title, "url": url, "id": video_id}]. *)
Record VideoMetadata := {
  video_title : pystr;
  video_url : option pystr;
  video_id : option pystr
}.

(** The three tests of the loop body, [true] when one of them continues. *)
Definition skipped (scraped_records : Records) (video : VideoMetadata) : bool :=
  let video_id := video_id video in
  let title :=
    default [] (or_else (Some (video_title video)) (Some (py "(untitled)"))) in
  if opt_truthy video_id
     && bool_decide (default [] video_id ∈ ids scraped_records) then true
  else if bool_decide (title ∈ titles scraped_records) then true
  else if negb (opt_truthy (video_url video)) then true
  else false.

(** The loop that builds [videos_to_scrape]. *)
Definition videos_to_scrape (scraped_records : Records) (videos : list VideoMetadata)
  : list VideoMetadata :=
  foldl (λ acc video, if skipped scraped_records video then acc
                      else acc ++ [video])
        [] videos.

(** ** The transcript of one video *)

Section TranscriptFile.
Context `{Library}.

(** The loop that collects [transcript_lines]. *)
Definition transcript_lines (transcript_elements : list element)
  : list pystr :=
  foldl (λ acc element,
           let line_text := _extract_transcript_line element in
           if opt_truthy line_text then acc ++ [default [] line_text]
           else acc)
        [] transcript_elements.

(** The text written to the transcript file: ["\n".join(transcript_lines)] *)
Definition transcript_text (transcript_elements : list element) : pystr :=
  join [LF] (transcript_lines transcript_elements).

End TranscriptFile.

(** ** The enumeration loop of [scrape_panopto_folder] *)

(** What the loop reads of the title element of a row. *)
Record title_element := {
  title_text : pystr;                 (* [title_element.text] *)
  title_innerText : option pystr;     (* [get_attribute("innerText")] *)
  title_textContent : option pystr    (* [get_attribute("textContent")] *)
}.

(** What the loop reads of the link of a row. *)
Record link := {
  link_text : pystr;     (* [link.text] *)
  href : option pystr    (* [link.get_attribute("href")] *)
}.

(** A row of the table: [find_element] raises when the row has no such
    element, which is [None] here. *)
Record row := {
  row_link : option link;
  row_title_element : option title_element
}.

(** The title of a row: the text of the title element, else its
    [innerText], else its [textContent], else the text of the link; all
    stripped. *)
Definition row_title (row : row) (link : link) : pystr :=
  let title :=
    match row_title_element row with
    | Some title_element =>
        let title := strip (title_text title_element) in
        if negb (truthy title) then
          let title :=
            strip (default [] (or_else (title_innerText title_element)
                                       (Some []))) in
          if negb (truthy title)
          then strip (default [] (or_else (title_textContent title_element)
                                          (Some [])))
          else title
        else title
    | None => []
    end in
  if negb (truthy title) then strip (link_text link) else title.

Section Enumerate.
Context `{Library}.

(** The loop over [video_rows]; [videos] and [seen_ids] are the variables
    of the source.  An exception of [_extract_video_id] leaves the loop. *)
Fixpoint collect_videos (video_rows : list row) (videos : list VideoMetadata)
    (seen_ids : gset pystr) : result (list VideoMetadata) :=
  match video_rows with
  | [] => Ok videos
  | row :: video_rows' =>
      match row_link row with
      | None => collect_videos video_rows' videos seen_ids
      | Some link =>
          let title := row_title row link in
          let url := href link in
          video_id ← _extract_video_id url;
          if opt_truthy video_id
             && bool_decide (default [] video_id ∈ seen_ids)
          then collect_videos video_rows' videos seen_ids
          else
            let seen_ids :=
              if opt_truthy video_id
              then seen_ids ∪ {[ default [] video_id ]} else seen_ids in
            collect_videos video_rows'
              (videos ++ [{| video_title := title; video_url := url;
                             video_id := video_id |}])
              seen_ids
      end
  end.

End Enumerate.

(** ** The scraping of one video *)

(** [path.write_text(s)] *)
Definition write_text (fs : filesystem) (path : Path) (s : pystr)
  : filesystem :=
  {| files := <[path := s]> (files fs); dirs := dirs fs |}.

Section ScrapeVideo.
Context `{Library}.

(** The body of the loop over [videos_to_scrape] once the transcript
    elements of the page are there: the transcript is written to a new file
    and the video is recorded.  The result is [None] only if the loop of
    [_build_transcript_path] runs out of fuel. *)
Definition save_transcript (scraped_records : Records) (fs : filesystem)
    (output_dir : Path) (state_path : option Path) (video : VideoMetadata)
    (transcript_elements : list element)
  : option (Records * filesystem * Path) :=
  let title :=
    default [] (or_else (Some (video_title video))
                        (Some (py "Untitled Session"))) in
  let video_id := video_id video in
  let text := transcript_text transcript_elements in
  let '(fs, transcript_path) :=
    _build_transcript_path fs output_dir (Some title) video_id in
  transcript_path ← transcript_path;
  let fs := write_text fs transcript_path text in
  let '(scraped_records, fs) :=
    _append_scraped_record scraped_records fs state_path video_id title in
  Some (scraped_records, fs, transcript_path).

End ScrapeVideo.

(** ** The cleaner in the words of the specification *)

Section TranscriptSpec.
Context `{Library}.

(** Scanning from the end, the last line that is a timestamp is taken out;
    at most one is. *)
Fixpoint take_last_timestamp (lines : list pystr)
  : option pystr * list pystr :=
  match lines with
  | [] => (None, [])
  | l :: lines' =>
      match take_last_timestamp lines' with
      | (Some t, rest) => (Some t, l :: rest)
      | (None, _) =>
          if TIMESTAMP_fullmatch l then (Some l, lines') else (None, lines)
      end
  end.

(** [cleanTranscriptLine] as the specification words it: the non-empty
    trimmed lines, without the noise lines, without the timestamp; the rest
    joined by single spaces is the body, and the timestamp goes in front. *)
Definition cleanTranscriptLine (rawText : pystr) : option pystr :=
  let lines := List.filter truthy (map strip (splitlines rawText)) in
  let lines := List.filter (λ l, negb (is_noise l)) lines in
  let '(timestamp, rest) := take_last_timestamp lines in
  let body := join (py " ") rest in
  if truthy body
  then Some (match timestamp with
             | Some t => t ++ py " " ++ body
             | None => body
             end)
  else None.

End TranscriptSpec.

(** ** The replacement of [_slugify] in the words of the specification *)

(** [replaced_runs text slug]: [slug] is [text] with every maximal run of
    characters that are not alphanumeric replaced by one hyphen.  A run is
    maximal when the text ends after it or goes on with an alphanumeric
    character. *)
Inductive replaced_runs : pystr → pystr → Prop :=
  | replaced_nil : replaced_runs [] []
  | replaced_alnum c text slug :
      is_ascii_alnum c = true →
      replaced_runs text slug →
      replaced_runs (c :: text) (c :: slug)
  | replaced_run run text slug :
      run ≠ [] →
      Forall (λ c, is_ascii_alnum c = false) run →
      (∀ c, head text = Some c → is_ascii_alnum c = true) →
      replaced_runs text slug →
      replaced_runs (run ++ text) (hyphen :: slug).

(** ** The state file in the words of the specification *)

(** The text [append] adds to the state file for an identifier and a title:
    one line with both, separated by a bar, or with the one that is
    present, and nothing when neither is. *)
Definition persisted_entry (id : option pystr) (title : pystr) : pystr :=
  match opt_truthy id, truthy title with
  | true, true => default [] id ++ [bar] ++ title ++ linesep
  | true, false => default [] id ++ linesep
  | false, true => title ++ linesep
  | false, false => []
  end.

(** A text that has no line ending inside. *)
Definition one_line (s : pystr) : Prop := (LF ∉ s) ∧ (CR ∉ s).

(** A file whose last line, if it has one, is ended. *)
Definition ended (s : pystr) : Prop :=
  ∀ c, last s = Some c → c = LF ∨ c = CR.

(** ** The filter stage in the words of the specification *)


(** ** The candidates of [_build_transcript_path] *)

(** The path with the counter [k] as its suffix. *)
Definition numbered_path (output_dir : Path) (base : pystr) (k : N) : Path :=
  joinpath output_dir (base ++ py "-" ++ str_of_N k ++ py ".txt").

(** The characters of a slug. *)
Definition is_slug_char (c : N) : bool := is_ascii_alnum c || is_hyphen c.

(** ** The identifier of a URL in the words of the specification *)

(** The first value of a key of the query. *)
Definition first_value (query : gmap pystr (list pystr)) (key : pystr)
  : option pystr :=
  query !! key ≫= head.

(** The first value of a key when it has the shape of an identifier. *)
Definition id_value (query : gmap pystr (list pystr)) (key : pystr)
  : option pystr :=
  first_value query key ≫= λ v, if VIDEO_ID_fullmatch v then Some v else None.

(** The last segment of a path that is not empty, the empty string when
    there is none. *)
Definition last_nonempty_segment (path : pystr) : pystr :=
  default [] (last (List.filter truthy (split_on 47 path))).

(** The identifier the specification finds in a parsed URL, before it is
    put in lower case: the value of [id], else of [objectId], else of
    [contentID], else the last segment of the path. *)
Definition found_id (query : gmap pystr (list pystr)) (path : pystr)
  : option pystr :=
  match id_value query (py "id") with
  | Some v => Some v
  | None =>
      match id_value query (py "objectId") with
      | Some v => Some v
      | None =>
          match id_value query (py "contentID") with
          | Some v => Some v
          | None =>
              if VIDEO_ID_fullmatch (last_nonempty_segment path)
              then Some (last_nonempty_segment path) else None
          end
      end
  end.

(** ** Predicates of the statements *)

(** A string without a line boundary of [str.splitlines()]. *)
Definition no_linebreak (s : pystr) : Prop :=
  Forall (λ c, is_linebreak c = false) s.

(** A string that is not empty and neither begins nor ends with a blank. *)
Definition trimmed (s : pystr) : Prop :=
  s ≠ [] ∧ (∀ c, head s = Some c → is_space c = false)
  ∧ (∀ c, last s = Some c → is_space c = false).

(** The characters of an identifier. *)
Definition is_id_char (c : N) : bool := is_hex c || (c =? hyphen).


(** An identifier in the canonical form: of the identifier shape and in
    lower case. *)
Definition canonical_id `{Library} (i : pystr) : Prop :=
  VIDEO_ID_fullmatch i = true ∧ lower i = i.

(** No two hyphens of a string are next to each other. *)
Fixpoint hyphens_apart (s : pystr) : bool :=
  match s with
  | c :: s' =>
      match s' with
      | d :: _ => negb (is_hyphen c && is_hyphen d) && hyphens_apart s'
      | [] => true
      end
  | [] => true
  end.

(** * Properties *)

(** ** Stripping *)

Section Strip.
Variable p : N → bool.

Lemma lstrip_by_decompose s :
  ∃ pre, s = pre ++ lstrip_by p s ∧ Forall (λ c, p c = true) pre.
Proof.
  induction s as [|c s IH]; simpl.
  - by exists [].
  - destruct (p c) eqn:E.
    + destruct IH as (pre & Hs & Hpre). exists (c :: pre). split.
      * simpl. by rewrite <- Hs.
      * by constructor.
    + by exists [].
Qed.

Lemma lstrip_by_head s c : head (lstrip_by p s) = Some c → p c = false.
Proof.
  induction s as [|x s IH]; simpl; [done|].
  destruct (p x) eqn:E; [done|]. simpl. congruence.
Qed.

Lemma lstrip_by_id s :
  (∀ c, head s = Some c → p c = false) → lstrip_by p s = s.
Proof.
  destruct s as [|x s]; simpl; [done|]. intros Hh.
  by rewrite (Hh x eq_refl).
Qed.

Lemma rstrip_by_decompose s :
  ∃ suf, s = rstrip_by p s ++ suf ∧ Forall (λ c, p c = true) suf.
Proof.
  unfold rstrip_by.
  destruct (lstrip_by_decompose (reverse s)) as (pre & Hs & Hpre).
  exists (reverse pre). split.
  - rewrite <- reverse_app, <- Hs. by rewrite reverse_involutive.
  - by apply Forall_reverse.
Qed.

Lemma rstrip_by_last s c : last (rstrip_by p s) = Some c → p c = false.
Proof.
  unfold rstrip_by. rewrite last_reverse. apply lstrip_by_head.
Qed.

Lemma rstrip_by_id s :
  (∀ c, last s = Some c → p c = false) → rstrip_by p s = s.
Proof.
  intros Hl. unfold rstrip_by. rewrite lstrip_by_id.
  - apply reverse_involutive.
  - intros c. rewrite head_reverse. apply Hl.
Qed.

Lemma rstrip_by_head s c :
  head (rstrip_by p s) = Some c → head s = Some c.
Proof.
  destruct (rstrip_by_decompose s) as (suf & Hs & _).
  intros Hh. rewrite Hs. destruct (rstrip_by p s); [done|]. exact Hh.
Qed.

Lemma strip_by_head s c : head (strip_by p s) = Some c → p c = false.
Proof.
  unfold strip_by. intros Hh. apply rstrip_by_head in Hh.
  by apply lstrip_by_head in Hh.
Qed.

Lemma strip_by_last s c : last (strip_by p s) = Some c → p c = false.
Proof. apply rstrip_by_last. Qed.

Lemma strip_by_id s :
  (∀ c, head s = Some c → p c = false) →
  (∀ c, last s = Some c → p c = false) →
  strip_by p s = s.
Proof.
  intros Hh Hl. unfold strip_by. rewrite (lstrip_by_id s Hh).
  by apply rstrip_by_id.
Qed.

Lemma strip_by_idemp s : strip_by p (strip_by p s) = strip_by p s.
Proof.
  apply strip_by_id; [apply strip_by_head | apply strip_by_last].
Qed.

Lemma strip_by_decompose s :
  ∃ pre suf, s = pre ++ strip_by p s ++ suf
             ∧ Forall (λ c, p c = true) pre ∧ Forall (λ c, p c = true) suf.
Proof.
  destruct (lstrip_by_decompose s) as (pre & Hs & Hpre).
  destruct (rstrip_by_decompose (lstrip_by p s)) as (suf & Hs' & Hsuf).
  exists pre, suf. split; [|done].
  unfold strip_by. by rewrite <- Hs', <- Hs.
Qed.

Lemma strip_by_Forall (P : N → Prop) s :
  Forall P s → Forall P (strip_by p s).
Proof.
  destruct (strip_by_decompose s) as (pre & suf & Hs & _).
  intros HP. rewrite Hs in HP.
  apply Forall_app in HP as [_ HP]. by apply Forall_app in HP as [HP _].
Qed.

End Strip.

(** ** Lines and joins *)

Lemma splitlines_from_no_linebreak s : ∀ after_cr cur,
  no_linebreak cur →
  Forall no_linebreak (splitlines_from after_cr cur s).
Proof.
  induction s as [|c s IH]; intros after_cr cur Hcur; simpl.
  - destruct (truthy cur); constructor; [|constructor].
    by apply Forall_reverse.
  - destruct (after_cr && (c =? LF)); [by apply IH|].
    destruct (is_linebreak c) eqn:E.
    + constructor; [by apply Forall_reverse|]. apply IH. constructor.
    + apply IH. by constructor.
Qed.

Lemma splitlines_no_linebreak s : Forall no_linebreak (splitlines s).
Proof. apply splitlines_from_no_linebreak. constructor. Qed.

Lemma trimmed_strip s : truthy (strip s) = true → trimmed (strip s).
Proof.
  intros Ht. split; [|split].
  - intros E. by rewrite E in Ht.
  - apply strip_by_head.
  - apply strip_by_last.
Qed.

Lemma strip_trimmed s : trimmed s → strip s = s.
Proof. intros (_ & Hh & Hl). by apply strip_by_id. Qed.

Lemma truthy_true s : truthy s = true ↔ s ≠ [].
Proof. by destruct s. Qed.

Lemma join_cons_cons sep x y l :
  join sep (x :: y :: l) = x ++ sep ++ join sep (y :: l).
Proof. done. Qed.

Lemma trimmed_glue a b : trimmed a → trimmed b → trimmed (a ++ py " " ++ b).
Proof.
  intros (Ha & Hha & _) (Hb & _ & Hlb). split; [|split].
  - by destruct a.
  - intros c. destruct a; [done|]. apply Hha.
  - intros c. rewrite !last_app.
    destruct (last b) eqn:E; [intros [= <-]; by apply Hlb|].
    apply last_None in E. done.
Qed.

Lemma trimmed_join l : l ≠ [] → Forall trimmed l → trimmed (join (py " ") l).
Proof.
  induction l as [|x [|y l] IH]; intros Hne Hall; [done|..].
  - by apply Forall_inv in Hall.
  - rewrite join_cons_cons. apply Forall_cons in Hall as [Hx Hall].
    apply trimmed_glue; [done|]. by apply IH.
Qed.

Lemma no_linebreak_join l :
  Forall no_linebreak l → no_linebreak (join (py " ") l).
Proof.
  induction l as [|x [|y l] IH]; intros Hall; [constructor|..].
  - by apply Forall_inv in Hall.
  - rewrite join_cons_cons. apply Forall_cons in Hall as [Hx Hall].
    apply Forall_app. split; [done|]. apply Forall_app. split; [|by apply IH].
    by repeat constructor.
Qed.

Lemma join_nil_inv l : Forall trimmed l → join (py " ") l = [] → l = [].
Proof.
  intros Hall E. destruct l as [|x l]; [done|]. exfalso.
  destruct (trimmed_join (x :: l)) as (Hne & _); done.
Qed.

(** ** The timestamp loop *)

Section TranscriptFacts.
Context `{Library}.

Lemma take_last_timestamp_None lines rest :
  take_last_timestamp lines = (None, rest) → rest = lines.
Proof.
  destruct lines as [|l lines]; simpl; [congruence|].
  destruct (take_last_timestamp lines) as [[t|] r]; [congruence|].
  destruct (TIMESTAMP_fullmatch l); congruence.
Qed.

Lemma take_last_timestamp_snoc lines x :
  take_last_timestamp (lines ++ [x]) =
  if TIMESTAMP_fullmatch x then (Some x, lines)
  else match take_last_timestamp lines with
       | (Some t, rest) => (Some t, rest ++ [x])
       | (None, _) => (None, lines ++ [x])
       end.
Proof.
  induction lines as [|l lines IH]; simpl.
  - by destruct (TIMESTAMP_fullmatch x).
  - rewrite IH. destruct (TIMESTAMP_fullmatch x); [done|].
    destruct (take_last_timestamp lines) as [[t|] r]; [done|].
    by destruct (TIMESTAMP_fullmatch l).
Qed.

(** The loop over the indices below [n] takes the last timestamp of the
    first [n] pieces. *)
Lemma pop_timestamp_take n : ∀ pieces,
  (n ≤ length pieces)%nat →
  pop_timestamp n pieces =
  match take_last_timestamp (take n pieces) with
  | (Some t, rest) => (Some t, rest ++ drop n pieces)
  | (None, _) => (None, pieces)
  end.
Proof.
  induction n as [|idx IH]; intros pieces Hn; simpl.
  - done.
  - destruct (lookup_lt_is_Some_2 pieces idx) as [piece Hp]; [lia|].
    rewrite Hp, (take_S_r _ _ _ Hp), take_last_timestamp_snoc.
    destruct (TIMESTAMP_fullmatch piece).
    + by rewrite delete_take_drop.
    + rewrite IH by lia.
      destruct (take_last_timestamp (take idx pieces)) as [[t|] r]; [|done].
      rewrite <- app_assoc. simpl. by rewrite (drop_S _ _ _ Hp).
Qed.

Lemma pop_timestamp_spec pieces :
  pop_timestamp (length pieces) pieces = take_last_timestamp pieces.
Proof.
  rewrite pop_timestamp_take by lia. rewrite firstn_all, drop_all.
  destruct (take_last_timestamp pieces) as [[t|] r] eqn:E.
  - by rewrite app_nil_r.
  - by rewrite (take_last_timestamp_None _ _ E).
Qed.

Lemma take_last_timestamp_Forall (P : pystr → Prop) lines :
  Forall P lines →
  Forall P (take_last_timestamp lines).2
  ∧ ∀ t, (take_last_timestamp lines).1 = Some t → P t.
Proof.
  induction 1 as [|l lines Hl Hall [IH1 IH2]]; simpl.
  - split; [constructor|done].
  - destruct (take_last_timestamp lines) as [[t|] r]; simpl in *.
    + split; [by constructor|done].
    + destruct (TIMESTAMP_fullmatch l); simpl.
      * split; [done|]. by intros t [= <-].
      * split; [by constructor|done].
Qed.

Lemma filter_filter_noise l :
  List.filter (λ l, negb (is_noise l)) (List.filter truthy l) =
  List.filter (λ piece, truthy piece && negb (is_noise piece)) l.
Proof.
  induction l as [|x l IH]; simpl; [done|].
  destruct (truthy x); simpl; [|done].
  destruct (is_noise x); simpl; by rewrite IH.
Qed.

(** The pieces that the cleaner keeps are trimmed and free of line
    breaks. *)
Lemma pieces_trimmed raw_text :
  Forall (λ p, trimmed p ∧ no_linebreak p)
    (List.filter (λ piece, truthy piece && negb (is_noise piece))
       (map strip (splitlines raw_text))).
Proof.
  apply Forall_forall. intros p Hp.
  apply list_elem_of_In, filter_In in Hp as [Hp Hk].
  apply andb_true_iff in Hk as [Ht _].
  apply in_map_iff in Hp as (x & <- & Hx).
  split; [by apply trimmed_strip|].
  apply strip_by_Forall.
  pose proof (splitlines_no_linebreak raw_text) as Hall.
  rewrite Forall_forall in Hall. apply Hall. by apply list_elem_of_In.
Qed.

Lemma clean_transcript_text_spec raw_text :
  clean_transcript_text raw_text = cleanTranscriptLine raw_text.
Proof.
  unfold clean_transcript_text, cleanTranscriptLine.
  rewrite filter_filter_noise.
  pose proof (pieces_trimmed raw_text) as Hall.
  set (pieces := List.filter _ _) in *.
  rewrite pop_timestamp_spec.
  destruct (take_last_timestamp_Forall _ _ Hall) as [Hrest Hts].
  destruct (take_last_timestamp pieces) as [ts rest] eqn:E. simpl in *.
  assert (Hrest' : Forall trimmed rest)
    by (eapply Forall_impl; [exact Hrest|]; by intros ? []).
  destruct (decide (pieces = [])) as [Hnil|Hne].
  - rewrite Hnil in E. simpl in E. injection E as <- <-.
    rewrite bool_decide_eq_false_2 by (intros Hn; by apply Hn). done.
  - rewrite bool_decide_eq_true_2 by done. simpl.
    destruct (decide (rest = [])) as [->|Hr]; [done|].
    pose proof (trimmed_join rest Hr Hrest') as Hj.
    rewrite (strip_trimmed _ Hj).
    destruct Hj as (Hj & _). apply truthy_true in Hj. rewrite Hj. simpl.
    destruct ts as [t|]; [|done]. simpl.
    destruct (Hts t eq_refl) as [(Ht & _) _].
    apply truthy_true in Ht. by rewrite Ht.
Qed.

End TranscriptFacts.

(** *** What the cleaner takes out *)

Section TimestampFacts.
Context `{Library}.

Lemma take_last_timestamp_no_match lines rest :
  take_last_timestamp lines = (None, rest) →
  Forall (λ l, TIMESTAMP_fullmatch l = false) lines.
Proof.
  revert rest. induction lines as [|x lines IH]; intros rest; [constructor|].
  simpl. destruct (take_last_timestamp lines) as [[?|] r]; [done|].
  destruct (TIMESTAMP_fullmatch x) eqn:Ex; [done|]. intros _.
  constructor; [done|]. by apply (IH r).
Qed.

Lemma take_last_timestamp_Some lines t rest :
  take_last_timestamp lines = (Some t, rest) →
  ∃ pre post, lines = pre ++ t :: post ∧ rest = pre ++ post
              ∧ TIMESTAMP_fullmatch t = true
              ∧ Forall (λ l, TIMESTAMP_fullmatch l = false) post.
Proof.
  revert rest. induction lines as [|l lines IH]; intros rest; simpl; [done|].
  destruct (take_last_timestamp lines) as [[t'|] r] eqn:E.
  - intros [= -> <-].
    destruct (IH r eq_refl) as (pre & post & -> & -> & Ht & Hp).
    by exists (l :: pre), post.
  - destruct (TIMESTAMP_fullmatch l) eqn:El; [|done].
    intros [= <- <-]. exists [], lines. repeat split; [done|].
    by apply (take_last_timestamp_no_match _ r).
Qed.

End TimestampFacts.

(** *** The lines of the transcript file *)

Lemma split_on_no_sep sep s : sep ∉ s → split_on sep s = [s].
Proof.
  induction s as [|c s IH]; intros Hs; simpl; [done|].
  apply not_elem_of_cons in Hs as [Hc Hs].
  destruct (N.eqb_spec c sep) as [->|_]; [done|]. by rewrite IH.
Qed.

Lemma split_on_app sep s rest :
  sep ∉ s → split_on sep (s ++ sep :: rest) = s :: split_on sep rest.
Proof.
  induction s as [|c s IH]; intros Hs; simpl.
  - by rewrite N.eqb_refl.
  - apply not_elem_of_cons in Hs as [Hc Hs].
    destruct (N.eqb_spec c sep) as [->|_]; [done|]. by rewrite IH.
Qed.

Lemma split_on_join sep l :
  l ≠ [] → Forall (λ s, sep ∉ s) l → split_on sep (join [sep] l) = l.
Proof.
  induction l as [|x [|y l] IH]; intros Hne Hall; [done|..].
  - apply Forall_inv in Hall. by apply split_on_no_sep.
  - rewrite join_cons_cons. apply Forall_cons in Hall as [Hx Hall]. simpl.
    rewrite split_on_app by done. f_equal. by apply IH.
Qed.

Lemma no_linebreak_LF s : no_linebreak s → LF ∉ s.
Proof.
  intros Hs Hin. unfold no_linebreak in Hs. rewrite Forall_forall in Hs.
  by apply Hs in Hin.
Qed.

Lemma no_linebreak_glue a b :
  no_linebreak a → no_linebreak b → no_linebreak (a ++ py " " ++ b).
Proof.
  intros Ha Hb. unfold no_linebreak. rewrite !Forall_app.
  split; [done|]. split; [|done]. by repeat constructor.
Qed.

Section TranscriptLines.
Context `{Library}.

Lemma cleanTranscriptLine_tidy raw_text r :
  cleanTranscriptLine raw_text = Some r → trimmed r ∧ no_linebreak r.
Proof.
  unfold cleanTranscriptLine. rewrite filter_filter_noise.
  pose proof (pieces_trimmed raw_text) as Hall.
  set (pieces := List.filter _ _) in *.
  destruct (take_last_timestamp_Forall _ _ Hall) as [Hrest Hts].
  destruct (take_last_timestamp pieces) as [ts rest]. simpl in *.
  assert (Hrest1 : Forall trimmed rest)
    by (eapply Forall_impl; [exact Hrest|]; by intros ? []).
  assert (Hrest2 : Forall no_linebreak rest)
    by (eapply Forall_impl; [exact Hrest|]; by intros ? []).
  destruct (truthy (join (py " ") rest)) eqn:Hb; [|done].
  apply truthy_true in Hb.
  assert (Hr : rest ≠ []) by (by intros ->).
  pose proof (trimmed_join rest Hr Hrest1) as Hj1.
  pose proof (no_linebreak_join rest Hrest2) as Hj2.
  destruct ts as [t|]; intros [= <-]; [|done].
  destruct (Hts t eq_refl) as [Ht1 Ht2]. split.
  - by apply trimmed_glue.
  - by apply no_linebreak_glue.
Qed.

Lemma transcript_lines_tidy transcript_elements :
  Forall (λ l, trimmed l ∧ no_linebreak l)
    (transcript_lines transcript_elements).
Proof.
  unfold transcript_lines.
  enough (∀ acc, Forall (λ l, trimmed l ∧ no_linebreak l) acc →
    Forall (λ l, trimmed l ∧ no_linebreak l)
      (foldl (λ acc element,
           let line_text := _extract_transcript_line element in
           if opt_truthy line_text then acc ++ [default [] line_text]
           else acc) acc transcript_elements)) as Hgen
    by (apply Hgen; constructor).
  induction transcript_elements as [|e es IH]; intros acc Hacc; simpl; [done|].
  apply IH. unfold _extract_transcript_line.
  rewrite clean_transcript_text_spec.
  destruct (cleanTranscriptLine (element_raw_text e)) as [r|] eqn:E; [|done].
  simpl. destruct (truthy r); [|done].
  apply Forall_app. split; [done|]. constructor; [|constructor].
  by apply (cleanTranscriptLine_tidy _ _ E).
Qed.

End TranscriptLines.

(** ** The transcript cleaner *)


(** C9.  A result of the cleaner is a non-empty string without a line feed
    (or any other line boundary) that neither begins nor ends with a blank,
    and the lines of the text written to the transcript file, which joins
    the results with line feeds, are exactly the results. *)
Theorem transcript_line_is_one_line `{Library} raw_text r
    (Hr : clean_transcript_text raw_text = Some r) :
  r ≠ [] ∧ (LF ∉ r) ∧ no_linebreak r
  ∧ (∀ c, head r = Some c → is_space c = false)
  ∧ (∀ c, last r = Some c → is_space c = false)
  ∧ ∀ transcript_elements,
      split_on LF (transcript_text transcript_elements) =
      if bool_decide (transcript_lines transcript_elements = [])
      then [[]] else transcript_lines transcript_elements.
Proof.
  rewrite clean_transcript_text_spec in Hr.
  destruct (cleanTranscriptLine_tidy _ _ Hr) as [(Hne & Hh & Hl) Hnb].
  split; [done|]. split; [by apply no_linebreak_LF|].
  split; [done|]. split; [done|]. split; [done|].
  intros es. unfold transcript_text. case_bool_decide as E.
  - by rewrite E.
  - apply split_on_join; [done|].
    eapply Forall_impl; [apply transcript_lines_tidy|].
    intros l [_ Hl']. by apply no_linebreak_LF.
Qed.

Lemma transcript_line_is_one_line_witness :
  let r := py "1:23:45 Hello world" in
  r ≠ [] ∧ (LF ∉ r) ∧ no_linebreak r
  ∧ (∀ c, head r = Some c → is_space c = false)
  ∧ (∀ c, last r = Some c → is_space c = false)
  ∧ ∀ transcript_elements,
      split_on LF (@transcript_text ascii_library transcript_elements) =
      if bool_decide (@transcript_lines ascii_library transcript_elements = [])
      then [[]] else @transcript_lines ascii_library transcript_elements.
Proof.
  apply (@transcript_line_is_one_line ascii_library
           (py "Retry" ++ [LF] ++ py "1:23:45" ++ [LF] ++ py "Hello world")).
  vm_compute. reflexivity.
Defined.

(** ** [_slugify] *)

Lemma sub_non_alnum_skip run text :
  Forall (λ c, is_ascii_alnum c = false) run →
  (∀ c, head text = Some c → is_ascii_alnum c = true) →
  sub_non_alnum true (run ++ text) = sub_non_alnum false text.
Proof.
  intros Hrun Htext. induction Hrun as [|c run Hc _ IH]; simpl.
  - destruct text as [|c text]; [done|]. simpl.
    by rewrite (Htext c eq_refl).
  - by rewrite Hc.
Qed.

Lemma sub_non_alnum_replaced text :
  (∀ run, run ≠ [] → Forall (λ c, is_ascii_alnum c = false) run →
     replaced_runs (run ++ text) (hyphen :: sub_non_alnum true text))
  ∧ replaced_runs text (sub_non_alnum false text).
Proof.
  induction text as [|c text [IH1 IH2]].
  - split; [|constructor]. intros run Hne Hrun. simpl.
    apply replaced_run; [done..| |constructor]. done.
  - simpl. destruct (is_ascii_alnum c) eqn:Ec.
    + assert (Hc : replaced_runs (c :: text) (c :: sub_non_alnum false text))
        by (by constructor).
      split; [|done]. intros run Hne Hrun.
      apply replaced_run; [done..| |done]. by intros ? [= <-].
    + split.
      * intros run Hne Hrun.
        replace (run ++ c :: text) with ((run ++ [c]) ++ text)
          by (by rewrite <- app_assoc).
        apply IH1; [by destruct run|].
        apply Forall_app. split; [done|]. by repeat constructor.
      * apply (IH1 [c]); [done|]. by repeat constructor.
Qed.

(** The relation determines the slug: it is what [re.sub] computes. *)
Lemma replaced_runs_iff text slug :
  replaced_runs text slug ↔ slug = sub_non_alnum false text.
Proof.
  split.
  - induction 1 as [|c text slug Hc _ IH|run text slug Hne Hrun Htext _ IH].
    + done.
    + simpl. by rewrite Hc, IH.
    + destruct run as [|c run]; [done|]. apply Forall_cons in Hrun as [Hc Hrun].
      simpl. rewrite Hc, IH. f_equal. symmetry. by apply sub_non_alnum_skip.
  - intros ->. apply sub_non_alnum_replaced.
Qed.

Lemma head_take {A} n (l : list A) x :
  head (take n l) = Some x → head l = Some x.
Proof. destruct n, l; simpl; congruence. Qed.

Lemma slugify_unfold text :
  let slug := strip_by is_hyphen (sub_non_alnum false text) in
  _slugify text = if truthy (take 80 slug) then take 80 slug
                  else py "transcript".
Proof. done. Qed.

Lemma is_hyphen_false c : is_hyphen c = false → c ≠ hyphen.
Proof. unfold is_hyphen. by intros ?%N.eqb_neq. Qed.

Lemma slugify_shape text :
  _slugify text ≠ []
  ∧ (length (_slugify text) ≤ 80)%nat
  ∧ head (_slugify text) ≠ Some hyphen
  ∧ ((length (strip_by is_hyphen (sub_non_alnum false text)) ≤ 80)%nat →
     last (_slugify text) ≠ Some hyphen).
Proof.
  rewrite slugify_unfold. simpl.
  set (slug := strip_by is_hyphen (sub_non_alnum false text)).
  destruct (truthy (take 80 slug)) eqn:E.
  - apply truthy_true in E. split; [done|].
    split; [rewrite length_take; lia|]. split.
    + intros Hh. apply head_take, strip_by_head, is_hyphen_false in Hh. done.
    + intros Hlen Hl. rewrite take_ge in Hl by done.
      apply strip_by_last, is_hyphen_false in Hl. done.
  - repeat split; try done. vm_compute. lia.
Qed.

(** C5 (as amended).  [_slugify] replaces every maximal run of characters
    that are not ASCII letters or digits by one hyphen, trims the hyphens at
    both ends, keeps at most 80 characters and falls back to "transcript"
    when nothing is left.  The result is never empty, has at most 80
    characters and never begins with a hyphen; it does not end with a hyphen
    when the trimmed text had at most 80 characters. *)
Theorem slugify_correct text replaced (Hrep : replaced_runs text replaced) :
  let trimmed := strip_by is_hyphen replaced in
  _slugify text = (if truthy (take 80 trimmed) then take 80 trimmed
                   else py "transcript")
  ∧ _slugify text ≠ []
  ∧ (length (_slugify text) ≤ 80)%nat
  ∧ head (_slugify text) ≠ Some hyphen
  ∧ ((length trimmed ≤ 80)%nat → last (_slugify text) ≠ Some hyphen).
Proof.
  apply replaced_runs_iff in Hrep as ->. simpl.
  split; [apply slugify_unfold|]. apply slugify_shape.
Qed.

Lemma slugify_correct_witness :
  let text := py "Lecture 12: Intro!!" in
  let replaced := py "Lecture-12-Intro-" in
  replaced_runs text replaced
  ∧ _slugify text = py "Lecture-12-Intro"
  ∧ last (_slugify text) ≠ Some hyphen.
Proof.
  assert (Hrep : replaced_runs (py "Lecture 12: Intro!!")
                   (py "Lecture-12-Intro-"))
    by (apply replaced_runs_iff; vm_compute; reflexivity).
  split; [exact Hrep|].
  destruct (slugify_correct _ _ Hrep) as (Heq & _ & _ & _ & Hlast).
  split.
  - rewrite Heq. vm_compute. reflexivity.
  - apply Hlast. vm_compute. lia.
Defined.

(** The claim C5 as it was stated fails: a text whose trimmed replacement
    has a hyphen as its 80th character gives a slug that ends with it. *)
Lemma slugify_trailing_hyphen :
  ¬ ∀ text, head (_slugify text) ≠ Some hyphen
            ∧ last (_slugify text) ≠ Some hyphen.
Proof.
  intros Hclaim.
  destruct (Hclaim (replicate 79 97 ++ py " b")) as [_ Hlast].
  apply Hlast. vm_compute. reflexivity.
Qed.

Example slugify_trailing_hyphen_value :
  _slugify (replicate 79 97 ++ py " b") = replicate 79 97 ++ py "-".
Proof. vm_compute. reflexivity. Qed.

(** ** The state store *)

Lemma lstrip_by_all p s : Forall (λ c, p c = true) s → lstrip_by p s = [].
Proof. induction 1 as [|c s Hc _ IH]; simpl; [done|]. by rewrite Hc. Qed.

Lemma strip_blank title :
  Forall (λ c, is_space c = true) title → strip title = [].
Proof.
  intros Hb. unfold strip, strip_by. by rewrite lstrip_by_all.
Qed.

Lemma strip_idemp s : strip (strip s) = strip s.
Proof. apply strip_by_idemp. Qed.

Lemma files_ensure_parent_dir fs path :
  files (_ensure_parent_dir fs path) = files fs.
Proof. unfold _ensure_parent_dir. by destruct (negb _). Qed.

Lemma read_text_ensure_parent_dir fs path q :
  read_text (_ensure_parent_dir fs path) q = read_text fs q.
Proof. unfold read_text. by rewrite files_ensure_parent_dir. Qed.

Lemma read_text_append_text fs p s :
  read_text (append_text fs p s) p = read_text fs p ++ s.
Proof. unfold read_text at 1. simpl. by rewrite lookup_insert_eq. Qed.

Lemma files_append_text_ne fs p s q :
  q ≠ p → files (append_text fs p s) !! q = files fs !! q.
Proof. intros Hq. simpl. by rewrite lookup_insert_ne. Qed.

Section AppendFacts.
Context `{Library}.

Lemma append_records records fs state_path video_id title :
  (_append_scraped_record records fs state_path video_id title).1 =
  let records :=
    if opt_truthy video_id then add_id records (lower (default [] video_id))
    else records in
  if truthy (strip title) then add_title records (strip title) else records.
Proof.
  unfold _append_scraped_record. destruct state_path as [p|]; [|done].
  by destruct (opt_truthy _).
Qed.

Lemma append_files records fs p video_id title :
  files (_append_scraped_record records fs (Some p) video_id title).2 =
  if opt_truthy video_id || truthy (strip title)
  then <[p := read_text fs p ++ persisted_entry video_id (strip title)]>
         (files fs)
  else files fs.
Proof.
  unfold _append_scraped_record, persisted_entry.
  destruct video_id as [[|c i]|]; destruct (strip title) as [|t ts];
    simpl; rewrite ?read_text_ensure_parent_dir, ?files_ensure_parent_dir;
    try done.
  by rewrite <- app_assoc.
Qed.

Lemma append_read_text records fs p video_id title :
  read_text (_append_scraped_record records fs (Some p) video_id title).2 p =
  read_text fs p ++ persisted_entry video_id (strip title).
Proof.
  unfold read_text at 1. rewrite append_files.
  destruct (opt_truthy video_id) eqn:Ei, (truthy (strip title)) eqn:Et;
    simpl; rewrite ?lookup_insert_eq; try done.
  unfold persisted_entry. rewrite Ei, Et. by rewrite app_nil_r.
Qed.

End AppendFacts.

(** C10.  [append] uses the title only trimmed: it behaves on a title as on
    the trimmed title; what it adds to the titles in memory and writes to
    the state file is the trimmed title; and a title of blanks only is
    treated as the empty title, so that nothing is added to the titles and
    no title is written. *)
Theorem append_trims_title `{Library} records fs state_path video_id title :
  _append_scraped_record records fs state_path video_id title =
  _append_scraped_record records fs state_path video_id (strip title)
  ∧ titles (_append_scraped_record records fs state_path video_id title).1 =
    (if truthy (strip title)
     then titles (if opt_truthy video_id
                  then add_id records (lower (default [] video_id))
                  else records) ∪ {[ strip title ]}
     else titles records)
  ∧ (∀ p, state_path = Some p →
       read_text
         (_append_scraped_record records fs state_path video_id title).2 p =
       read_text fs p ++ persisted_entry video_id (strip title))
  ∧ (Forall (λ c, is_space c = true) title →
       _append_scraped_record records fs state_path video_id title =
       _append_scraped_record records fs state_path video_id []
       ∧ titles
           (_append_scraped_record records fs state_path video_id title).1 =
         titles records
       ∧ ∀ p, state_path = Some p →
           read_text
             (_append_scraped_record records fs state_path video_id title).2
             p =
           read_text fs p ++ persisted_entry video_id []).
Proof.
  assert (Hstrip : _append_scraped_record records fs state_path video_id title
            = _append_scraped_record records fs state_path video_id
                (strip title))
    by (unfold _append_scraped_record; by rewrite strip_idemp).
  assert (Htitles :
    titles (_append_scraped_record records fs state_path video_id title).1 =
    (if truthy (strip title)
     then titles (if opt_truthy video_id
                  then add_id records (lower (default [] video_id))
                  else records) ∪ {[ strip title ]}
     else titles records)).
  { rewrite append_records. simpl.
    destruct (truthy (strip title)), (opt_truthy video_id); done. }
  split; [done|]. split; [done|]. split.
  - intros p ->. apply append_read_text.
  - intros Hblank. pose proof (strip_blank _ Hblank) as E. split; [|split].
    + unfold _append_scraped_record. by rewrite E.
    + rewrite Htitles, E. done.
    + intros p ->. by rewrite append_read_text, E.
Qed.

Lemma append_trims_title_witness :
  let id := py "123e4567-e89b-12d3-a456-426614174000" in
  let p := {| absolute := false; parts := [py "state.txt"] |} in
  let fs := {| files := ∅; dirs := ∅ |} in
  Forall (λ c, is_space c = true) (py "  ")
  ∧ @_append_scraped_record ascii_library no_records fs (Some p) (Some id)
      (py "  ")
    = @_append_scraped_record ascii_library no_records fs (Some p) (Some id)
        [].
Proof.
  assert (Hblank : Forall (λ c, is_space c = true) (py "  "))
    by (repeat constructor).
  split; [exact Hblank|].
  apply (@append_trims_title ascii_library). exact Hblank.
Defined.

(** ** The shape of an identifier *)

Ltac char_facts :=
  unfold is_id_char, is_hex, is_ascii_digit, is_ascii, is_space,
    is_linebreak, hyphen, bar, LF, CR in *;
  repeat match goal with
         | H : _ = true |- _ =>
             rewrite ?orb_true_iff, ?andb_true_iff, ?N.leb_le, ?N.eqb_eq,
               ?N.ltb_lt in H
         end.

Lemma id_char_facts c :
  is_id_char c = true →
  is_space c = false ∧ is_ascii c = true ∧ c ≠ bar ∧ c ≠ LF ∧ c ≠ CR.
Proof.
  intros Hc. split; [|split; [|split; [|split]]].
  - apply not_true_iff_false. intros Hs. char_facts. lia.
  - char_facts. apply N.ltb_lt. lia.
  - char_facts. lia.
  - char_facts. lia.
  - char_facts. lia.
Qed.

Lemma hexes_Some n : ∀ s r,
  hexes n s = Some r →
  ∃ pre, s = pre ++ r ∧ Forall (λ c, is_id_char c = true) pre
         ∧ length pre = n.
Proof.
  induction n as [|n IH]; intros s r; simpl.
  - intros [= ->]. by exists [].
  - destruct s as [|c s]; [done|]. destruct (is_hex c) eqn:Ec; [|done].
    intros (pre & -> & Hpre & Hlen)%IH. exists (c :: pre).
    split; [done|]. split; [|simpl; by rewrite Hlen].
    constructor; [|done]. unfold is_id_char. by rewrite Ec.
Qed.

Lemma hexes_then_hyphen_Some n s r :
  hexes_then_hyphen n s = Some r →
  ∃ pre, s = pre ++ r ∧ Forall (λ c, is_id_char c = true) pre
         ∧ length pre = S n.
Proof.
  unfold hexes_then_hyphen.
  destruct (hexes n s) as [[|c s']|] eqn:E; [done| |done].
  destruct (N.eqb_spec c hyphen) as [->|]; [|done]. intros [= ->].
  apply hexes_Some in E as (pre & -> & Hpre & Hlen).
  exists (pre ++ [hyphen]). split; [by rewrite <- app_assoc|]. split.
  - apply Forall_app. split; [done|]. by repeat constructor.
  - rewrite length_app. simpl. lia.
Qed.

Lemma VIDEO_ID_fullmatch_chars s :
  VIDEO_ID_fullmatch s = true →
  Forall (λ c, is_id_char c = true) s ∧ length s = 36%nat.
Proof.
  unfold VIDEO_ID_fullmatch.
  destruct (hexes_then_hyphen 8 s) as [s1|] eqn:E1; cbn -[hexes hexes_then_hyphen]; [|done].
  destruct (hexes_then_hyphen 4 s1) as [s2|] eqn:E2; cbn -[hexes hexes_then_hyphen]; [|done].
  destruct (hexes_then_hyphen 4 s2) as [s3|] eqn:E3; cbn -[hexes hexes_then_hyphen]; [|done].
  destruct (hexes_then_hyphen 4 s3) as [s4|] eqn:E4; cbn -[hexes hexes_then_hyphen]; [|done].
  destruct (hexes 12 s4) as [[|? ?]|] eqn:E5; [|done..]. intros _.
  apply hexes_then_hyphen_Some in E1 as (p1 & -> & H1 & L1).
  apply hexes_then_hyphen_Some in E2 as (p2 & -> & H2 & L2).
  apply hexes_then_hyphen_Some in E3 as (p3 & -> & H3 & L3).
  apply hexes_then_hyphen_Some in E4 as (p4 & -> & H4 & L4).
  apply hexes_Some in E5 as (p5 & -> & H5 & L5).
  split.
  - rewrite !Forall_app. repeat split; try done.
  - rewrite !length_app. simpl. lia.
Qed.

Lemma id_trimmed s : VIDEO_ID_fullmatch s = true → trimmed s.
Proof.
  intros (Hs & Hlen)%VIDEO_ID_fullmatch_chars.
  rewrite Forall_forall in Hs. split; [|split].
  - by destruct s.
  - intros c Hc. apply id_char_facts, Hs. destruct s; [done|].
    injection Hc as ->. apply elem_of_cons. by left.
  - intros c (l' & ->)%last_Some. apply id_char_facts, Hs.
    apply elem_of_app. right. apply elem_of_cons. by left.
Qed.

Lemma id_no_char s c :
  VIDEO_ID_fullmatch s = true → c = bar ∨ c = LF ∨ c = CR → c ∉ s.
Proof.
  intros (Hs & _)%VIDEO_ID_fullmatch_chars Hc Hin.
  rewrite Forall_forall in Hs.
  destruct (id_char_facts c (Hs c Hin)) as (_ & _ & ? & ? & ?).
  by destruct Hc as [|[|]].
Qed.

Lemma id_one_line s : VIDEO_ID_fullmatch s = true → one_line s.
Proof. intros Hs. split; apply id_no_char; auto. Qed.

Lemma id_ascii s : VIDEO_ID_fullmatch s = true → forallb is_ascii s = true.
Proof.
  intros (Hs & _)%VIDEO_ID_fullmatch_chars. apply forallb_forall.
  intros c Hc%list_elem_of_In. rewrite Forall_forall in Hs.
  by apply id_char_facts, Hs.
Qed.

Lemma lower_id `{Library} s :
  VIDEO_ID_fullmatch s = true → lower s = map ascii_lower s.
Proof. intros Hs. unfold lower. by rewrite id_ascii. Qed.

(** ** The lines of a file *)

Lemma readlines_from_ended a c : ∀ after_cr cur b,
  (after_cr = true → cur = []) →
  c = LF ∨ c = CR →
  readlines_from after_cr cur (a ++ c :: b) =
  readlines_from after_cr cur (a ++ [c]) ++ readlines_from (c =? CR) [] b.
Proof.
  intros after_cr cur b Hinv Hc. revert after_cr cur Hinv.
  induction a as [|x a IH]; intros after_cr cur Hinv; simpl.
  - destruct after_cr; simpl.
    + rewrite (Hinv eq_refl). destruct Hc as [->| ->]; done.
    + destruct Hc as [->| ->]; done.
  - destruct (after_cr && (x =? LF)); [by apply IH|].
    destruct ((x =? LF) || (x =? CR)).
    + simpl. f_equal. by apply IH.
    + by apply IH.
Qed.

Lemma readlines_from_one_line s : ∀ cur,
  one_line s →
  readlines_from false cur (s ++ [LF]) = [reverse cur ++ s ++ [LF]].
Proof.
  induction s as [|c s IH]; intros cur [Hlf Hcr]; simpl.
  - by rewrite reverse_cons.
  - apply not_elem_of_cons in Hlf as [Hc1 Hlf].
    apply not_elem_of_cons in Hcr as [Hc2 Hcr].
    destruct (N.eqb_spec c LF); [done|]. destruct (N.eqb_spec c CR); [done|].
    simpl. rewrite IH by done. by rewrite reverse_cons, <- app_assoc.
Qed.

Lemma readlines_from_one_line_start s after_cr :
  one_line s → s ≠ [] →
  readlines_from after_cr [] (s ++ [LF]) = [s ++ [LF]].
Proof.
  intros Hs Hne. destruct s as [|c s]; [done|]. pose proof Hs as [Hlf Hcr].
  apply not_elem_of_cons in Hlf as [Hc1 Hlf].
  apply not_elem_of_cons in Hcr as [Hc2 Hcr]. simpl.
  destruct (N.eqb_spec c LF); [done|]. destruct (N.eqb_spec c CR); [done|].
  rewrite andb_false_r. simpl. by rewrite readlines_from_one_line.
Qed.

(** Appending one ended line to an ended file adds that line to its lines. *)
Lemma readlines_append old line :
  ended old → one_line line → line ≠ [] →
  readlines (old ++ line ++ [LF]) = readlines old ++ [line ++ [LF]].
Proof.
  intros Hold Hline Hne. unfold readlines.
  destruct (last old) as [c|] eqn:E.
  - pose proof (Hold c E) as Hc.
    apply last_Some in E as [a ->]. rewrite <- app_assoc. simpl.
    rewrite readlines_from_ended by done.
    by rewrite readlines_from_one_line_start.
  - apply last_None in E as ->. simpl.
    by rewrite readlines_from_one_line_start.
Qed.

Lemma one_line_entry id title :
  one_line id → one_line title → one_line (id ++ [bar] ++ title).
Proof.
  intros [H1 H2] [H3 H4].
  split; intros Hin; apply elem_of_app in Hin as [Hin|Hin]; try done;
    apply elem_of_cons in Hin as [Hin|Hin]; done.
Qed.

Lemma persisted_entry_line id title :
  (opt_truthy id = true → one_line (default [] id)) →
  one_line title →
  opt_truthy id || truthy title = true →
  ∃ line, persisted_entry id title = line ++ [LF]
          ∧ one_line line ∧ line ≠ [].
Proof.
  intros Hid Ht Hp. unfold persisted_entry, linesep.
  destruct id as [[|c i]|]; simpl in *.
  - destruct title as [|t ts]; [done|]. by exists (t :: ts).
  - specialize (Hid eq_refl). destruct (truthy title).
    + exists (c :: i ++ [bar] ++ title). split; [|split; [|done]].
      * simpl. by rewrite <- !app_assoc.
      * by apply (one_line_entry (c :: i)).
    + by exists (c :: i).
  - destruct title as [|t ts]; [done|]. by exists (t :: ts).
Qed.

(** ** Appending to the state file *)




(** Nor are the lines of a file kept when its last line is not ended. *)
Example append_merges_with_open_line :
  let p := {| absolute := false; parts := [py "state.txt"] |} in
  let fs := {| files := {[ p := py "Lecture 0" ]}; dirs := ∅ |} in
  readlines (read_text fs p) = [py "Lecture 0"]
  ∧ readlines
      (read_text
         (@_append_scraped_record ascii_library no_records fs (Some p) None
            (py "Lecture 1")).2 p)
    = [py "Lecture 0Lecture 1" ++ [LF]].
Proof. split; vm_compute; reflexivity. Qed.

(** ** Loading what was appended *)

Lemma reverse_snoc_cons {A} (l : list A) x : reverse (l ++ [x]) = x :: reverse l.
Proof. by rewrite reverse_app. Qed.

Lemma strip_line s : trimmed s → strip (s ++ [LF]) = s.
Proof.
  intros (Hne & Hh & Hl). unfold strip, strip_by.
  rewrite lstrip_by_id.
  - unfold rstrip_by. rewrite reverse_snoc_cons. simpl.
    fold (rstrip_by is_space s). by apply rstrip_by_id.
  - intros c Hc. apply Hh. by destruct s.
Qed.

Lemma split1_no_sep sep s : sep ∉ s → split1 sep s = (s, None).
Proof.
  induction s as [|c s IH]; intros Hs; simpl; [done|].
  apply not_elem_of_cons in Hs as [Hc Hs].
  destruct (N.eqb_spec c sep) as [->|_]; [done|]. by rewrite IH.
Qed.

Lemma split1_at sep s rest :
  sep ∉ s → split1 sep (s ++ sep :: rest) = (s, Some rest).
Proof.
  induction s as [|c s IH]; intros Hs; simpl.
  - by rewrite N.eqb_refl.
  - apply not_elem_of_cons in Hs as [Hc Hs].
    destruct (N.eqb_spec c sep) as [->|_]; [done|]. by rewrite IH.
Qed.

Lemma trimmed_entry id title :
  trimmed id → trimmed title → trimmed (id ++ [bar] ++ title).
Proof.
  intros (Ha & Hha & _) (Hb & _ & Hlb). split; [|split].
  - by destruct id.
  - intros c. destruct id; [done|]. apply Hha.
  - intros c. rewrite !last_app.
    destruct (last title) eqn:E; [intros [= <-]; by apply Hlb|].
    by apply last_None in E.
Qed.

Section LoadFacts.
Context `{Library}.

Lemma load_line_id records id :
  VIDEO_ID_fullmatch id = true →
  load_line records (id ++ [LF]) = add_id records (lower id).
Proof.
  intros Hid. pose proof (id_trimmed _ Hid) as Ht. unfold load_line.
  rewrite (strip_line _ Ht).
  destruct Ht as (Hne & _). apply truthy_true in Hne as ->. simpl.
  rewrite split1_no_sep by (apply id_no_char; auto). simpl.
  rewrite (strip_trimmed id) by (by apply id_trimmed). by rewrite Hid.
Qed.

Lemma load_line_id_title records id title :
  VIDEO_ID_fullmatch id = true → trimmed title →
  load_line records ((id ++ [bar] ++ title) ++ [LF]) =
  add_title (add_id records (lower id)) title.
Proof.
  intros Hid Ht. pose proof (id_trimmed _ Hid) as Hi. unfold load_line.
  rewrite (strip_line _ (trimmed_entry _ _ Hi Ht)).
  destruct (trimmed_entry _ _ Hi Ht) as (Hne & _).
  apply truthy_true in Hne as ->. simpl.
  rewrite split1_at by (apply id_no_char; auto). simpl.
  rewrite (strip_trimmed id) by done. rewrite Hid.
  rewrite (strip_trimmed title) by done.
  destruct Ht as (Hne & _). by apply truthy_true in Hne as ->.
Qed.

Lemma path_exists_append_text fs p s :
  path_exists (append_text fs p s) p = true.
Proof.
  unfold path_exists. simpl. rewrite bool_decide_eq_true_2; [done|].
  apply elem_of_dom. rewrite lookup_insert_eq. by eexists.
Qed.

End LoadFacts.

(** C3 (as amended).  After an identifier of the identifier shape and a
    title have been appended to a state file that was absent, empty or
    ended by a line ending, loading the file gives a store whose
    identifiers contain the identifier in lower case and, when the trimmed
    title is not empty, whose titles contain the trimmed title, provided
    the trimmed title has no line ending inside. *)
Theorem state_store_round_trip `{Library} records fs p id title
    (Hid : VIDEO_ID_fullmatch id = true)
    (Htitle : one_line (strip title))
    (Hfile : ended (read_text fs p)) :
  let fs' := (_append_scraped_record records fs (Some p) (Some id) title).2 in
  let loaded := _load_scraped_records fs' (Some p) in
  lower id ∈ ids loaded
  ∧ (truthy (strip title) = true → strip title ∈ titles loaded).
Proof.
  cbv zeta. unfold _load_scraped_records.
  pose proof (id_trimmed _ Hid) as (Hne & _).
  assert (Hex : path_exists
      (_append_scraped_record records fs (Some p) (Some id) title).2 p = true).
  { unfold path_exists. rewrite append_files.
    destruct id as [|c i]; [done|]. simpl.
    rewrite bool_decide_eq_true_2; [done|].
    apply elem_of_dom. rewrite lookup_insert_eq. by eexists. }
  rewrite Hex. cbn [negb]. rewrite append_read_text.
  assert (Hone : opt_truthy (Some id) = true → one_line (default [] (Some id)))
    by (intros _; by apply id_one_line).
  assert (Hp : opt_truthy (Some id) || truthy (strip title) = true)
    by (destruct id; done).
  destruct (persisted_entry_line _ _ Hone Htitle Hp) as (line & E & Hl & Hnl).
  rewrite E, readlines_append, foldl_app by done. simpl. rewrite <- E.
  unfold persisted_entry. simpl. apply truthy_true in Hne as ->.
  destruct (truthy (strip title)) eqn:Et.
  - replace (id ++ bar :: strip title ++ linesep)
      with ((id ++ [bar] ++ strip title) ++ [LF])
      by (by rewrite <- !app_assoc).
    rewrite load_line_id_title by (done || by apply trimmed_strip).
    simpl. split; [|intros _]; apply elem_of_union; right;
      by apply elem_of_singleton.
  - rewrite load_line_id by done. simpl. split; [|done].
    apply elem_of_union. right. by apply elem_of_singleton.
Qed.

Lemma state_store_round_trip_witness :
  let id := py "123E4567-e89b-12d3-a456-426614174000" in
  let p := {| absolute := false; parts := [py "state.txt"] |} in
  let fs := {| files := ∅; dirs := ∅ |} in
  let fs' :=
    (@_append_scraped_record ascii_library no_records fs (Some p) (Some id)
       (py "Lecture 1")).2 in
  let loaded := @_load_scraped_records ascii_library fs' (Some p) in
  py "123e4567-e89b-12d3-a456-426614174000" ∈ ids loaded
  ∧ py "Lecture 1" ∈ titles loaded.
Proof.
  intros id p fs fs' loaded.
  assert (Hid : VIDEO_ID_fullmatch id = true) by (vm_compute; reflexivity).
  assert (Htitle : one_line (strip (py "Lecture 1"))).
  { split; vm_compute; intros Hin;
      repeat (apply elem_of_cons in Hin as [Hin|Hin]; [done|]);
      by apply elem_of_nil in Hin. }
  assert (Hfile : ended (read_text fs p)) by (intros c Hc; done).
  destruct (@state_store_round_trip ascii_library no_records fs p id
              (py "Lecture 1") Hid Htitle Hfile) as [H1 H2].
  split; [exact H1|]. apply H2. vm_compute. reflexivity.
Defined.

(** The claim C3 as it was stated fails on a title that begins with a
    blank: the store holds the trimmed title, not the title. *)
Lemma state_store_round_trip_untrimmed :
  ¬ ∀ (L : Library) records fs p id title,
      VIDEO_ID_fullmatch id = true →
      let fs' :=
        (_append_scraped_record records fs (Some p) (Some id) title).2 in
      let loaded := _load_scraped_records fs' (Some p) in
      lower id ∈ ids loaded ∧ title ∈ titles loaded.
Proof.
  intros Hclaim.
  destruct (Hclaim ascii_library no_records {| files := ∅; dirs := ∅ |}
              {| absolute := false; parts := [py "state.txt"] |}
              (py "123e4567-e89b-12d3-a456-426614174000")
              (py " Lecture 1")) as [_ Hin].
  { vm_compute. reflexivity. }
  apply (bool_decide_pack _) in Hin. vm_compute in Hin. exact Hin.
Qed.

(** ** The filter stage *)

Lemma videos_to_scrape_filter scraped_records videos :
  videos_to_scrape scraped_records videos =
  List.filter (λ v, negb (skipped scraped_records v)) videos.
Proof.
  unfold videos_to_scrape.
  enough (∀ acc,
    foldl (λ acc video, if skipped scraped_records video then acc
                        else acc ++ [video]) acc videos =
    acc ++ List.filter (λ v, negb (skipped scraped_records v)) videos)
    as Hgen by apply Hgen.
  induction videos as [|v videos IH]; intros acc; simpl.
  - by rewrite app_nil_r.
  - rewrite IH. destruct (skipped scraped_records v); simpl; [done|].
    by rewrite <- app_assoc.
Qed.

Section Loaded.
Context `{Library}.



End Loaded.





(** ** Decimal numerals *)

Lemma py_inj s t : py s = py t → s = t.
Proof.
  unfold py. intros E.
  rewrite <- (string_of_list_ascii_of_string s),
          <- (string_of_list_ascii_of_string t).
  f_equal. revert E.
  generalize (list_ascii_of_string s), (list_ascii_of_string t).
  intros l. induction l as [|a l IH]; intros [|b l']; simpl; try done.
  intros [= Hab Hl]. f_equal; [|by apply IH].
  by rewrite <- (ascii_N_embedding a), <- (ascii_N_embedding b), Hab.
Qed.

Lemma to_uint_not_Nil n : N.to_uint n ≠ Decimal.Nil.
Proof. destruct n; [done|]. apply DecimalPos.Unsigned.to_uint_nonnil. Qed.

Lemma str_of_N_inj n m : str_of_N n = str_of_N m → n = m.
Proof.
  unfold str_of_N. intros E%py_inj.
  apply DecimalN.Unsigned.to_uint_inj.
  pose proof (NilZero.usu _ (to_uint_not_Nil n)) as Hn.
  pose proof (NilZero.usu _ (to_uint_not_Nil m)) as Hm.
  rewrite E in Hn. congruence.
Qed.

Lemma digits_of_uint d :
  Forall (λ c, is_ascii_digit c = true) (py (NilEmpty.string_of_uint d)).
Proof. induction d; simpl; constructor; done. Qed.

Lemma str_of_N_digits n : Forall (λ c, is_ascii_digit c = true) (str_of_N n).
Proof.
  unfold str_of_N, NilZero.string_of_uint.
  destruct (N.to_uint n) eqn:E; try (rewrite <- E; apply digits_of_uint).
  by repeat constructor.
Qed.

(** ** Components of a path *)

Lemma split_on_app_tail sep s u :
  sep ∉ u →
  ∃ l x, split_on sep s = l ++ [x] ∧ split_on sep (s ++ u) = l ++ [x ++ u].
Proof.
  intros Hu. induction s as [|c s (l & x & E1 & E2)]; simpl.
  - exists [], []. split; [done|]. by apply split_on_no_sep.
  - destruct (c =? sep).
    + exists ([] :: l), x. by rewrite E1, E2.
    + rewrite E1, E2. destruct l as [|y l]; simpl.
      * by exists [], (c :: x).
      * by exists ((c :: y) :: l), x.
Qed.

Lemma keep_component x u :
  (2 ≤ length u)%nat → x ++ u ≠ [] ∧ x ++ u ≠ py ".".
Proof.
  intros Hlen. split; intros E; apply (f_equal length) in E;
    rewrite length_app in E; simpl in E; lia.
Qed.

Lemma components_app_tail s u :
  47 ∉ u → (2 ≤ length u)%nat →
  ∃ l x, components (s ++ u) = l ++ [x ++ u].
Proof.
  intros Hu Hlen. destruct (split_on_app_tail 47 s u Hu) as (l & x & _ & E).
  unfold components. rewrite E, List.filter_app. cbn [List.filter].
  destruct (keep_component x u Hlen) as [Hne Hdot].
  apply truthy_true in Hne. rewrite Hne. case_bool_decide; [done|].
  by eexists _, x.
Qed.

Lemma components_tail_inj s u v :
  47 ∉ u → (2 ≤ length u)%nat → 47 ∉ v → (2 ≤ length v)%nat →
  components (s ++ u) = components (s ++ v) → u = v.
Proof.
  intros Hu Hlu Hv Hlv.
  destruct (split_on_app_tail 47 s u Hu) as (l1 & x1 & E1 & Eu1).
  destruct (split_on_app_tail 47 s v Hv) as (l2 & x2 & E2 & Ev2).
  rewrite E1 in E2. apply app_inj_tail in E2 as [-> ->].
  unfold components. rewrite Eu1, Ev2, !List.filter_app. cbn [List.filter].
  destruct (keep_component x2 u Hlu) as [Hne1 Hdot1].
  destruct (keep_component x2 v Hlv) as [Hne2 Hdot2].
  apply truthy_true in Hne1, Hne2. rewrite Hne1, Hne2.
  repeat case_bool_decide; try done. simpl.
  intros E%app_inj_tail. destruct E as [_ E].
  by apply app_inv_head in E.
Qed.

(** ** The base name *)

Lemma sub_non_alnum_chars s : ∀ in_run,
  Forall (λ c, is_slug_char c = true) (sub_non_alnum in_run s).
Proof.
  induction s as [|c s IH]; intros in_run; simpl; [constructor|].
  destruct (is_ascii_alnum c) eqn:E.
  - constructor; [|apply IH]. unfold is_slug_char. by rewrite E.
  - destruct in_run; [apply IH|]. constructor; [done|apply IH].
Qed.

Lemma slugify_chars text : Forall (λ c, is_slug_char c = true) (_slugify text).
Proof.
  rewrite slugify_unfold. simpl. destruct (truthy _).
  - apply Forall_take, strip_by_Forall, sub_non_alnum_chars.
  - by repeat constructor.
Qed.

Lemma slug_char_not_slash c : is_slug_char c = true → c ≠ 47.
Proof.
  unfold is_slug_char, is_ascii_alnum, is_ascii_alpha, is_ascii_upper,
    is_ascii_lower, is_ascii_digit, is_hyphen, hyphen.
  rewrite !orb_true_iff, !andb_true_iff, !N.leb_le, N.eqb_eq. lia.
Qed.

Lemma base_name_head title video_id :
  ∃ c rest, base_name title video_id = c :: rest ∧ c ≠ 47.
Proof.
  unfold base_name.
  set (slug := _slugify _).
  assert (Hs : ∃ c rest, slug = c :: rest ∧ c ≠ 47).
  { pose proof (slugify_chars
      (default [] (or_else title (Some (py "untitled-session"))))) as Hc.
    pose proof (slugify_shape
      (default [] (or_else title (Some (py "untitled-session"))))) as [Hne _].
    fold slug in Hc, Hne. destruct slug as [|c rest]; [done|].
    exists c, rest. split; [done|].
    apply Forall_cons in Hc as [Hc _]. by apply slug_char_not_slash. }
  destruct Hs as (c & rest & -> & Hc).
  destruct (truthy _); by eexists _, _.
Qed.

Lemma joinpath_relative d c rest :
  c ≠ 47 →
  joinpath d (c :: rest) =
  {| absolute := absolute d; parts := parts d ++ components (c :: rest) |}.
Proof.
  intros Hc. unfold joinpath. rewrite bool_decide_eq_false_2; [done|].
  simpl. congruence.
Qed.

Lemma not_in_lineage d l :
  l ≠ [] → {| absolute := absolute d; parts := parts d ++ l |} ∉ lineage d.
Proof.
  intros Hl Hin. unfold lineage in Hin.
  apply list_elem_of_fmap in Hin as (n & E & _). injection E as E.
  apply (f_equal length) in E. rewrite length_app, length_take in E.
  destruct l; [done|]. simpl in E. lia.
Qed.

Lemma tail_txt_ok u :
  47 ∉ u → (47 ∉ u ++ py ".txt") ∧ (2 ≤ length (u ++ py ".txt"))%nat.
Proof.
  intros Hu. split.
  - intros [Hin|Hin]%elem_of_app; [done|]. vm_compute in Hin.
    repeat (apply elem_of_cons in Hin as [Hin|Hin]; [done|]).
    by apply elem_of_nil in Hin.
  - rewrite length_app. simpl. lia.
Qed.

Lemma counter_tail_ok k : 47 ∉ py "-" ++ str_of_N k.
Proof.
  intros [Hin|Hin]%elem_of_app.
  - vm_compute in Hin. apply elem_of_cons in Hin as [Hin|Hin]; [done|].
    by apply elem_of_nil in Hin.
  - pose proof (str_of_N_digits k) as Hd. rewrite Forall_forall in Hd.
    by apply Hd in Hin.
Qed.

Section Candidates.
Variables (fs : filesystem) (output_dir : Path) (title video_id : option pystr).

Let base := base_name title video_id.

(** A candidate, the base with a tail that has no slash and ends in
    [.txt], is a new entry below [output_dir]. *)
Lemma candidate_parts u :
  47 ∉ u →
  ∃ l, l ≠ []
       ∧ joinpath output_dir (base ++ u ++ py ".txt") =
         {| absolute := absolute output_dir;
            parts := parts output_dir ++ l |}.
Proof.
  intros Hu. destruct (tail_txt_ok u Hu) as [H1 H2].
  destruct (base_name_head title video_id) as (c & rest & E & Hc).
  fold base in E. rewrite E. simpl. rewrite joinpath_relative by done.
  change (c :: rest ++ u ++ py ".txt") with ((c :: rest) ++ u ++ py ".txt").
  destruct (components_app_tail (c :: rest) _ H1 H2) as (l & x & ->).
  exists (l ++ [x ++ u ++ py ".txt"]). split; [by destruct l|done].
Qed.

Lemma candidate_exists_mkdir u :
  47 ∉ u →
  path_exists (mkdir_parents fs output_dir)
    (joinpath output_dir (base ++ u ++ py ".txt"))
  = path_exists fs (joinpath output_dir (base ++ u ++ py ".txt")).
Proof.
  intros Hu. destruct (candidate_parts u Hu) as (l & Hl & ->).
  unfold path_exists, mkdir_parents. cbn [files dirs]. f_equal.
  apply bool_decide_ext. split.
  - intros [Hin|Hin]%elem_of_union; [done|].
    apply elem_of_list_to_set in Hin. by apply not_in_lineage in Hin.
  - intros Hin. apply elem_of_union. by left.
Qed.

Lemma numbered_path_inj j k :
  numbered_path output_dir base j = numbered_path output_dir base k → j = k.
Proof.
  unfold numbered_path.
  destruct (base_name_head title video_id) as (c & rest & E & Hc).
  fold base in E. rewrite E. simpl. rewrite !joinpath_relative by done.
  intros [= Hparts%app_inv_head].
  destruct (tail_txt_ok _ (counter_tail_ok j)) as [H1 H2].
  destruct (tail_txt_ok _ (counter_tail_ok k)) as [H3 H4].
  rewrite <- !app_assoc in H1, H2, H3, H4.
  assert (Heq : py "-" ++ str_of_N j ++ py ".txt"
                = py "-" ++ str_of_N k ++ py ".txt")
    by (by apply (components_tail_inj (c :: rest))).
  apply app_inv_head, app_inv_tail in Heq. by apply str_of_N_inj.
Qed.

End Candidates.

(** ** The loop of [_build_transcript_path] *)

Lemma least_false (P : nat → bool) m :
  (∀ j, (j < m)%nat → P j = true)
  ∨ ∃ n, (n < m)%nat ∧ P n = false ∧ ∀ j, (j < n)%nat → P j = true.
Proof.
  induction m as [|m [IH|(n & Hn & Hf & Hlt)]].
  - left. intros j Hj. lia.
  - destruct (P m) eqn:E.
    + left. intros j Hj. destruct (decide (j = m)) as [->|]; [done|].
      apply IH. lia.
    + right. exists m. split; [lia|]. done.
  - right. exists n. split; [lia|]. done.
Qed.

Section Loop.
Variables (fs : filesystem) (output_dir : Path) (base : pystr).

Lemma next_free_path_numbered n : ∀ k fuel,
  (∀ j, (j < n)%nat →
        path_exists fs (numbered_path output_dir base (k + N.of_nat j)) = true) →
  path_exists fs (numbered_path output_dir base (k + N.of_nat n)) = false →
  (n < fuel)%nat →
  next_free_path fuel fs output_dir base (numbered_path output_dir base k)
    (k + 1)
  = Some (numbered_path output_dir base (k + N.of_nat n)).
Proof.
  induction n as [|n IH]; intros k fuel Hex Hfree Hfuel;
    (destruct fuel as [|fuel]; [lia|]); simpl.
  - rewrite N.add_0_r in Hfree. by rewrite Hfree, N.add_0_r.
  - pose proof (Hex 0%nat ltac:(lia)) as H0. rewrite N.add_0_r in H0.
    rewrite H0. fold (numbered_path output_dir base (k + 1)).
    replace (k + N.of_nat (S n)) with (k + 1 + N.of_nat n) in * by lia.
    apply IH; [|done|lia]. intros j Hj.
    replace (k + 1 + N.of_nat j) with (k + N.of_nat (S j)) by lia.
    apply Hex. lia.
Qed.

End Loop.

Section Pigeonhole.
Variables (fs : filesystem) (output_dir : Path) (title video_id : option pystr).

Let base := base_name title video_id.

(** The numbered candidates are distinct, so those that exist are no more
    than the entries of the file system. *)
Lemma numbered_exist_bound m :
  (∀ j, (j < m)%nat →
        path_exists fs (numbered_path output_dir base (1 + N.of_nat j)) = true) →
  (m ≤ entries fs)%nat.
Proof.
  intros Hex.
  set (L := map (λ j, numbered_path output_dir base (1 + N.of_nat j))
                (seq 0 m)).
  assert (Hnd : NoDup L).
  { apply NoDup_fmap_2_strong; [|apply NoDup_seq].
    intros i j _ _ E. apply numbered_path_inj in E. lia. }
  assert (Hsub : list_to_set (C := gset Path) L ⊆ dom (files fs) ∪ dirs fs).
  { intros p Hp. apply elem_of_list_to_set in Hp.
    apply list_elem_of_fmap in Hp as (j & -> & Hj).
    apply elem_of_seq in Hj. specialize (Hex j ltac:(lia)).
    unfold path_exists in Hex. apply orb_true_iff in Hex as [Hex|Hex];
      apply bool_decide_eq_true in Hex; apply elem_of_union; auto. }
  apply subseteq_size in Hsub. rewrite size_list_to_set in Hsub by done.
  unfold L in Hsub. rewrite length_map, length_seq in Hsub.
  rewrite size_union_alt in Hsub.
  assert (size (dirs fs ∖ dom (files fs)) ≤ size (dirs fs))%nat
    by (apply subseteq_size, subseteq_difference_l; done).
  unfold entries. lia.
Qed.

End Pigeonhole.

Lemma numbered_path_tail d base k :
  numbered_path d base k =
  joinpath d (base ++ (py "-" ++ str_of_N k) ++ py ".txt").
Proof. unfold numbered_path. by rewrite <- !app_assoc. Qed.

Lemma next_free_path_S fuel fs output_dir base path counter :
  next_free_path (S fuel) fs output_dir base path counter =
  if path_exists fs path
  then next_free_path fuel fs output_dir base
         (numbered_path output_dir base counter) (counter + 1)
  else Some path.
Proof. done. Qed.


(** The loop on a directory where the base path and the first numbered
    path are taken. *)
Example build_transcript_path_third :
  let d := {| absolute := false; parts := [py "transcripts"] |} in
  let fs :=
    {| files := {[ joinpath d (py "Lecture-1-123e4567.txt") := py "a";
                   joinpath d (py "Lecture-1-123e4567-1.txt") := py "b" ]};
       dirs := {[ d ]} |} in
  (_build_transcript_path fs d (Some (py "Lecture 1"))
     (Some (py "123e4567-e89b-12d3-a456-426614174000"))).2
  = Some (joinpath d (py "Lecture-1-123e4567-2.txt")).
Proof. vm_compute. reflexivity. Qed.

(** ** The last segment of a path *)

Lemma split_on_app_sep sep a b :
  split_on sep (a ++ sep :: b) = split_on sep a ++ split_on sep b.
Proof.
  induction a as [|c a IH]; simpl.
  - by rewrite N.eqb_refl.
  - destruct (c =? sep); rewrite IH; [done|].
    destruct (split_on sep a) as [|x l] eqn:E; [|done].
    destruct a; simpl in E; [done|]. destruct (_ =? _); [done|].
    by destruct (split_on sep a).
Qed.

Lemma split_on_seps sep s :
  Forall (λ c, (c =? sep) = true) s →
  List.filter truthy (split_on sep s) = [].
Proof.
  induction 1 as [|c s Hc _ IH]; simpl; [done|]. rewrite Hc. simpl. exact IH.
Qed.

Lemma filter_split_on_rstrip sep core suf :
  Forall (λ c, (c =? sep) = true) suf →
  List.filter truthy (split_on sep (core ++ suf)) =
  List.filter truthy (split_on sep core).
Proof.
  intros Hsuf. destruct Hsuf as [|c suf Hc Hsuf]; [by rewrite app_nil_r|].
  apply N.eqb_eq in Hc as ->.
  rewrite split_on_app_sep, List.filter_app.
  rewrite (split_on_seps _ _ Hsuf). by rewrite app_nil_r.
Qed.

Lemma last_filter_split_on sep core :
  (∀ c, last core = Some c → (c =? sep) = false) →
  default [] (last (List.filter truthy (split_on sep core))) =
  default [] (last (split_on sep core)).
Proof.
  intros Hl. destruct (last core) as [c|] eqn:E.
  - apply last_Some in E as [s ->]. specialize (Hl c eq_refl).
    assert (Hc : sep ∉ [c]).
    { intros [->|Hin]%elem_of_cons; [by rewrite N.eqb_refl in Hl|].
      by apply elem_of_nil in Hin. }
    destruct (split_on_app_tail sep s [c] Hc) as (l & x & _ & ->).
    rewrite List.filter_app. cbn [List.filter].
    assert (Hx : truthy (x ++ [c]) = true) by (by destruct x).
    by rewrite Hx, !last_snoc.
  - by apply last_None in E as ->.
Qed.

Lemma last_segment_spec path : last_segment path = last_nonempty_segment path.
Proof.
  unfold last_segment, last_nonempty_segment.
  destruct (rstrip_by_decompose (N.eqb 47) path) as (suf & E & Hsuf).
  rewrite E at 2. rewrite filter_split_on_rstrip.
  - symmetry. apply last_filter_split_on.
    intros c Hc. apply rstrip_by_last in Hc. by rewrite N.eqb_sym.
  - eapply Forall_impl; [exact Hsuf|]. intros c Hc. by rewrite N.eqb_sym.
Qed.

(** ** [_extract_video_id] *)

Lemma VIDEO_ID_fullmatch_truthy v : VIDEO_ID_fullmatch v = true → truthy v = true.
Proof. intros [_ Hlen]%VIDEO_ID_fullmatch_chars. by destruct v. Qed.

Section VideoIdFacts.
Context `{Library}.

Lemma first_query_id_cons query key keys :
  first_query_id query (key :: keys) =
  match id_value query key with
  | Some v => Some (lower v)
  | None => first_query_id query keys
  end.
Proof.
  simpl. unfold id_value, first_value.
  destruct (query !! key) as [[|candidate values]|]; simpl; try done.
  destruct (VIDEO_ID_fullmatch candidate) eqn:E.
  - by rewrite (VIDEO_ID_fullmatch_truthy _ E).
  - by rewrite andb_false_r.
Qed.

Lemma extract_video_id_parsed url parsed :
  url ≠ [] → urllib.urlparse url = Ok parsed →
  _extract_video_id (Some url) =
  Ok (lower <$> found_id (urllib.parse_qs (urllib.query parsed))
                         (urllib.path parsed)).
Proof.
  intros Hurl Hparsed. unfold _extract_video_id.
  apply truthy_true in Hurl. cbn [opt_truthy]. rewrite Hurl.
  change (default [] (Some url)) with url.
  cbn [negb]. rewrite Hparsed. cbn [mbind result_bind].
  unfold id_keys, found_id. rewrite !first_query_id_cons.
  set (query := urllib.parse_qs (urllib.query parsed)).
  destruct (id_value query (py "id")); [done|].
  destruct (id_value query (py "objectId")); [done|].
  destruct (id_value query (py "contentID")); [done|].
  cbn [first_query_id]. rewrite last_segment_spec.
  destruct (VIDEO_ID_fullmatch _) eqn:E.
  - by rewrite (VIDEO_ID_fullmatch_truthy _ E).
  - by rewrite andb_false_r.
Qed.

Lemma extract_video_id_raises url :
  urllib.urlparse url = Raise ValueError → url ≠ [] →
  _extract_video_id (Some url) = Raise ValueError.
Proof.
  intros Hparsed Hurl. unfold _extract_video_id.
  apply truthy_true in Hurl. cbn [opt_truthy]. rewrite Hurl.
  change (default [] (Some url)) with url.
  cbn [negb]. by rewrite Hparsed.
Qed.

End VideoIdFacts.

(** C1 (as amended).  For a URL that [urlparse] accepts, [_extract_video_id]
    returns, in lower case, the first value of the query key [id] when that
    value has the shape of an identifier; else the first value of
    [objectId] when it has; else the first value of [contentID] when it
    has; and when none of the three has, the last segment of the path that
    is not empty, when that has the shape of an identifier. *)
Theorem extract_video_id_correct `{Library} url parsed
    (Hurl : url ≠ []) (Hparsed : urllib.urlparse url = Ok parsed) :
  let query := urllib.parse_qs (urllib.query parsed) in
  let segment := last_nonempty_segment (urllib.path parsed) in
  _extract_video_id (Some url)
  = Ok (lower <$> found_id query (urllib.path parsed))
  ∧ (∀ v, id_value query (py "id") = Some v →
       _extract_video_id (Some url) = Ok (Some (lower v)))
  ∧ (∀ v, id_value query (py "id") = None →
       id_value query (py "objectId") = Some v →
       _extract_video_id (Some url) = Ok (Some (lower v)))
  ∧ (∀ v, id_value query (py "id") = None →
       id_value query (py "objectId") = None →
       id_value query (py "contentID") = Some v →
       _extract_video_id (Some url) = Ok (Some (lower v)))
  ∧ (id_value query (py "id") = None →
     id_value query (py "objectId") = None →
     id_value query (py "contentID") = None →
     VIDEO_ID_fullmatch segment = true →
     _extract_video_id (Some url) = Ok (Some (lower segment))).
Proof.
  intros query segment.
  pose proof (extract_video_id_parsed url parsed Hurl Hparsed) as E.
  fold query in E. split; [done|]. rewrite E. unfold found_id.
  split; [by intros v ->|]. split; [by intros v -> ->|].
  split; [by intros v -> -> ->|]. intros -> -> ->. fold segment.
  by intros ->.
Qed.

Lemma extract_video_id_correct_witness :
  @_extract_video_id ascii_library
    (Some (py "https://h.example/Panopto/Pages/Viewer.aspx?objectId=7&id=123E4567-E89B-12D3-A456-426614174000"))
  = Ok (Some (py "123e4567-e89b-12d3-a456-426614174000")).
Proof.
  pose (url := py "https://h.example/Panopto/Pages/Viewer.aspx?objectId=7&id=123E4567-E89B-12D3-A456-426614174000").
  pose (parsed :=
    {| urllib.scheme := py "https"; urllib.netloc := py "h.example";
       urllib.path := py "/Panopto/Pages/Viewer.aspx"; urllib.params := [];
       urllib.query :=
         py "objectId=7&id=123E4567-E89B-12D3-A456-426614174000";
       urllib.fragment := [] |}).
  assert (Hurl : url ≠ []) by done.
  assert (Hparsed : @urllib.urlparse ascii_library url = Ok parsed)
    by (vm_compute; reflexivity).
  destruct (@extract_video_id_correct ascii_library url parsed Hurl Hparsed)
    as (_ & Hid & _).
  apply (Hid (py "123E4567-E89B-12D3-A456-426614174000")).
  vm_compute. reflexivity.
Defined.

(** The claim C1 as it was stated fails on a URL that has the key [id]
    twice, first with a value that is no identifier: the second value,
    which is one, is not returned. *)
Lemma extract_video_id_second_value :
  ¬ ∀ (L : Library) url parsed values v,
      url ≠ [] → urllib.urlparse url = Ok parsed →
      urllib.parse_qs (urllib.query parsed) !! py "id" = Some values →
      v ∈ values → VIDEO_ID_fullmatch v = true →
      _extract_video_id (Some url) = Ok (Some (lower v)).
Proof.
  intros Hclaim.
  assert (E :
    @_extract_video_id ascii_library
      (Some (py "https://h.example/v?id=x&id=123e4567-e89b-12d3-a456-426614174000"))
    = Ok (Some (@lower ascii_library
                  (py "123e4567-e89b-12d3-a456-426614174000")))).
  { apply (Hclaim ascii_library _
      {| urllib.scheme := py "https"; urllib.netloc := py "h.example";
         urllib.path := py "/v"; urllib.params := [];
         urllib.query := py "id=x&id=123e4567-e89b-12d3-a456-426614174000";
         urllib.fragment := [] |}
      [py "x"; py "123e4567-e89b-12d3-a456-426614174000"]).
    - done.
    - vm_compute. reflexivity.
    - vm_compute. reflexivity.
    - apply elem_of_cons. right. apply elem_of_cons. by left.
    - vm_compute. reflexivity. }
  vm_compute in E. discriminate E.
Qed.





(** * Further properties *)

(** ** The identifiers that [_extract_video_id] returns *)

Lemma ascii_lower_hex c : is_hex c = true → is_hex (ascii_lower c) = true.
Proof.
  unfold ascii_lower, is_ascii_upper, is_hex, is_ascii_digit.
  intros Hc. destruct ((65 <=? c) && (c <=? 90)) eqn:E; [|done].
  rewrite !orb_true_iff, !andb_true_iff, !N.leb_le in *. lia.
Qed.

Lemma ascii_lower_idemp c : ascii_lower (ascii_lower c) = ascii_lower c.
Proof.
  unfold ascii_lower, is_ascii_upper.
  destruct ((65 <=? c) && (c <=? 90)) eqn:E; [|by rewrite E].
  apply andb_true_iff in E as [E1%N.leb_le E2%N.leb_le].
  destruct ((65 <=? c + 32) && (c + 32 <=? 90)) eqn:E'; [|done].
  apply andb_true_iff in E' as [_ E'%N.leb_le]. lia.
Qed.

Lemma ascii_lower_ascii c : is_ascii c = true → is_ascii (ascii_lower c) = true.
Proof.
  unfold ascii_lower, is_ascii_upper, is_ascii. intros Hc%N.ltb_lt.
  destruct ((65 <=? c) && (c <=? 90)) eqn:E; apply N.ltb_lt; [|done].
  apply andb_true_iff in E as [_ E%N.leb_le]. lia.
Qed.

Lemma hexes_lower n : ∀ s r,
  hexes n s = Some r →
  hexes n (map ascii_lower s) = Some (map ascii_lower r).
Proof.
  induction n as [|n IH]; intros s r; simpl; [by intros [= ->]|].
  destruct s as [|c s]; [done|]. simpl.
  destruct (is_hex c) eqn:E; [|done].
  rewrite (ascii_lower_hex _ E). apply IH.
Qed.

Lemma hexes_then_hyphen_lower n s r :
  hexes_then_hyphen n s = Some r →
  hexes_then_hyphen n (map ascii_lower s) = Some (map ascii_lower r).
Proof.
  unfold hexes_then_hyphen.
  destruct (hexes n s) as [[|c s']|] eqn:E; [done| |done].
  destruct (N.eqb_spec c hyphen) as [->|]; [|done]. intros [= ->].
  by rewrite (hexes_lower _ _ _ E).
Qed.

Lemma VIDEO_ID_fullmatch_lower s :
  VIDEO_ID_fullmatch s = true → VIDEO_ID_fullmatch (map ascii_lower s) = true.
Proof.
  unfold VIDEO_ID_fullmatch.
  destruct (hexes_then_hyphen 8 s) as [s1|] eqn:E1;
    cbn -[hexes hexes_then_hyphen]; [|done].
  destruct (hexes_then_hyphen 4 s1) as [s2|] eqn:E2;
    cbn -[hexes hexes_then_hyphen]; [|done].
  destruct (hexes_then_hyphen 4 s2) as [s3|] eqn:E3;
    cbn -[hexes hexes_then_hyphen]; [|done].
  destruct (hexes_then_hyphen 4 s3) as [s4|] eqn:E4;
    cbn -[hexes hexes_then_hyphen]; [|done].
  destruct (hexes 12 s4) as [[|? ?]|] eqn:E5; [|done..]. intros _.
  rewrite (hexes_then_hyphen_lower _ _ _ E1). cbn -[hexes hexes_then_hyphen].
  rewrite (hexes_then_hyphen_lower _ _ _ E2). cbn -[hexes hexes_then_hyphen].
  rewrite (hexes_then_hyphen_lower _ _ _ E3). cbn -[hexes hexes_then_hyphen].
  rewrite (hexes_then_hyphen_lower _ _ _ E4). cbn -[hexes hexes_then_hyphen].
  by rewrite (hexes_lower _ _ _ E5).
Qed.

Section Canonical.
Context `{Library}.

(** The lower case of an identifier is an identifier that lower-casing
    leaves as it is. *)
Lemma lower_id_canonical v :
  VIDEO_ID_fullmatch v = true →
  VIDEO_ID_fullmatch (lower v) = true ∧ lower (lower v) = lower v.
Proof.
  intros Hv. rewrite (lower_id _ Hv).
  pose proof (VIDEO_ID_fullmatch_lower _ Hv) as Hl. split; [done|].
  rewrite (lower_id _ Hl), map_map. apply map_ext. intros c.
  apply ascii_lower_idemp.
Qed.

Lemma id_value_fullmatch query key v :
  id_value query key = Some v → VIDEO_ID_fullmatch v = true.
Proof.
  unfold id_value. destruct (first_value query key) as [w|]; [|done]. simpl.
  destruct (VIDEO_ID_fullmatch w) eqn:E; [|done]. by intros [= <-].
Qed.

Lemma found_id_fullmatch query path v :
  found_id query path = Some v → VIDEO_ID_fullmatch v = true.
Proof.
  unfold found_id.
  destruct (id_value query (py "id")) as [w|] eqn:E1;
    [intros [= <-]; by apply id_value_fullmatch in E1|].
  destruct (id_value query (py "objectId")) as [w|] eqn:E2;
    [intros [= <-]; by apply id_value_fullmatch in E2|].
  destruct (id_value query (py "contentID")) as [w|] eqn:E3;
    [intros [= <-]; by apply id_value_fullmatch in E3|].
  destruct (VIDEO_ID_fullmatch _) eqn:E; [|done]. by intros [= <-].
Qed.

End Canonical.

Lemma extract_video_id_result `{Library} url r :
  _extract_video_id url = Ok (Some r) →
  VIDEO_ID_fullmatch r = true ∧ lower r = r ∧ length r = 36%nat.
Proof.
  intros Hr. destruct url as [[|c u]|]; [done| |done].
  destruct (urllib.urlparse (c :: u)) as [parsed|e] eqn:Hparsed.
  - rewrite (extract_video_id_parsed _ parsed) in Hr by done.
    destruct (found_id _ _) as [v|] eqn:Hv; [|done].
    injection Hr as <-. apply found_id_fullmatch in Hv.
    destruct (lower_id_canonical v Hv) as [H1 H2].
    split; [done|]. split; [done|].
    by apply VIDEO_ID_fullmatch_chars in H1 as [_ ?].
  - destruct e. by rewrite extract_video_id_raises in Hr.
Qed.

(** X1.  Whatever the URL, an identifier that [_extract_video_id] returns
    matches [VIDEO_ID_PATTERN] and is in lower case: lower-casing it again
    changes nothing. *)
Theorem extract_video_id_canonical `{Library} url r
    (Hr : _extract_video_id url = Ok (Some r)) :
  VIDEO_ID_fullmatch r = true ∧ lower r = r ∧ length r = 36%nat.
Proof. by apply (extract_video_id_result url). Qed.

Lemma extract_video_id_canonical_witness :
  let r := py "123e4567-e89b-12d3-a456-426614174000" in
  VIDEO_ID_fullmatch r = true ∧ @lower ascii_library r = r
  ∧ length r = 36%nat.
Proof.
  apply (@extract_video_id_canonical ascii_library
    (Some (py "https://h.example/Panopto/Pages/Viewer.aspx?id=123E4567-E89B-12D3-A456-426614174000"))).
  vm_compute. reflexivity.
Defined.

(** ** What a loaded store holds *)

Section LoadInvariant.
Context `{Library}.

Lemma load_unfold fs p :
  _load_scraped_records fs (Some p) =
  foldl load_line no_records (readlines (read_text fs p)).
Proof.
  unfold _load_scraped_records, path_exists, read_text.
  destruct (files fs !! p) as [s|] eqn:E.
  - rewrite bool_decide_eq_true_2; [done|]. apply elem_of_dom. by eexists.
  - destruct (bool_decide _ || bool_decide _); done.
Qed.

Lemma load_line_invariant records raw_line :
  set_Forall canonical_id (ids records) →
  set_Forall trimmed (titles records) →
  set_Forall canonical_id (ids (load_line records raw_line))
  ∧ set_Forall trimmed (titles (load_line records raw_line)).
Proof.
  intros Hids Htitles. unfold load_line.
  destruct (truthy (strip raw_line)) eqn:Hentry; [|done]. simpl.
  destruct (VIDEO_ID_fullmatch _) eqn:Hid.
  - assert (Hids' : set_Forall canonical_id
              (ids records ∪ {[lower (strip (split1 bar (strip raw_line)).1)]})).
    { apply set_Forall_union; [done|]. apply set_Forall_singleton.
      by apply lower_id_canonical. }
    destruct (split1 bar (strip raw_line)).2 as [rest|]; [|done].
    destruct (truthy (strip rest)) eqn:Hrest; [|done]. simpl.
    split; [done|]. apply set_Forall_union; [done|].
    apply set_Forall_singleton. by apply trimmed_strip.
  - simpl. split; [done|]. apply set_Forall_union; [done|].
    apply set_Forall_singleton. by apply trimmed_strip.
Qed.

Lemma foldl_load_line_invariant lines : ∀ records,
  set_Forall canonical_id (ids records) →
  set_Forall trimmed (titles records) →
  set_Forall canonical_id (ids (foldl load_line records lines))
  ∧ set_Forall trimmed (titles (foldl load_line records lines)).
Proof.
  induction lines as [|l lines IH]; intros records Hids Htitles; simpl;
    [done|].
  destruct (load_line_invariant records l Hids Htitles). by apply IH.
Qed.

End LoadInvariant.

(** X2.  Whatever the state file holds, every identifier of the loaded
    store matches [VIDEO_ID_PATTERN] and is in lower case, and every title
    of it is non-empty and neither begins nor ends with a blank. *)
Theorem load_scraped_records_invariant `{Library} fs state_path :
  set_Forall canonical_id (ids (_load_scraped_records fs state_path))
  ∧ set_Forall trimmed (titles (_load_scraped_records fs state_path)).
Proof.
  destruct state_path as [p|].
  - rewrite load_unfold.
    apply foldl_load_line_invariant; simpl; apply set_Forall_empty.
  - simpl. split; apply set_Forall_empty.
Qed.

(** ** The state file and the store in memory *)

Lemma readlines_app_ended old more :
  ended old →
  ∃ after_cr, readlines (old ++ more) =
              readlines old ++ readlines_from after_cr [] more.
Proof.
  intros Hold. unfold readlines. destruct (last old) as [c|] eqn:E.
  - pose proof (Hold c E) as Hc. apply last_Some in E as [a ->].
    rewrite <- app_assoc. simpl. exists (c =? CR).
    by apply readlines_from_ended.
  - apply last_None in E as ->. by exists false.
Qed.

Section Sync.
Context `{Library}.

Lemma load_line_subseteq records raw_line :
  ids records ⊆ ids (load_line records raw_line)
  ∧ titles records ⊆ titles (load_line records raw_line).
Proof.
  unfold load_line. destruct (truthy (strip raw_line)); [|done]. simpl.
  destruct (VIDEO_ID_fullmatch _).
  - destruct (split1 bar (strip raw_line)).2 as [rest|]; simpl.
    + destruct (truthy (strip rest)); simpl;
        split; try done; apply union_subseteq_l.
    + split; [apply union_subseteq_l|done].
  - simpl. split; [done|apply union_subseteq_l].
Qed.

Lemma foldl_load_line_subseteq lines : ∀ records,
  ids records ⊆ ids (foldl load_line records lines)
  ∧ titles records ⊆ titles (foldl load_line records lines).
Proof.
  induction lines as [|l lines IH]; intros records; simpl; [done|].
  destruct (load_line_subseteq records l) as [H1 H2].
  destruct (IH (load_line records l)) as [H3 H4].
  split; etrans; done.
Qed.

Lemma load_line_title records title :
  trimmed title →
  VIDEO_ID_fullmatch (strip (split1 bar title).1) = false →
  load_line records (title ++ [LF]) = add_title records title.
Proof.
  intros Ht Hshape. unfold load_line. rewrite (strip_line _ Ht).
  destruct Ht as (Hne & _). apply truthy_true in Hne as ->. simpl.
  by rewrite Hshape.
Qed.

End Sync.

(** X3.  The state file keeps up with the store in memory.  Let the store
    be the one loaded from a state file that is absent, empty or ended by a
    line ending.  After [append] of an identifier of the identifier shape,
    or of no identifier and a title whose part before the first bar is not
    of that shape, with a trimmed title that has no line ending inside,
    loading the file again gives exactly the store that [append] left in
    memory. *)
Theorem append_then_load_is_memory `{Library} fs p video_id title
    (Hfile : ended (read_text fs p))
    (Htitle : one_line (strip title))
    (Hshape : match video_id with
              | Some id => VIDEO_ID_fullmatch id = true
              | None =>
                  VIDEO_ID_fullmatch (strip (split1 bar (strip title)).1)
                  = false
              end) :
  let records := _load_scraped_records fs (Some p) in
  let after := _append_scraped_record records fs (Some p) video_id title in
  _load_scraped_records after.2 (Some p) = after.1.
Proof.
  cbv zeta. rewrite !load_unfold, append_read_text, append_records.
  set (records := foldl load_line no_records (readlines (read_text fs p))).
  destruct video_id as [id|].
  - pose proof (id_trimmed _ Hshape) as (Hne & _).
    assert (Hone : opt_truthy (Some id) = true
                   → one_line (default [] (Some id)))
      by (intros _; by apply id_one_line).
    assert (Hp : opt_truthy (Some id) || truthy (strip title) = true)
      by (destruct id; done).
    destruct (persisted_entry_line _ _ Hone Htitle Hp) as (line & E & Hl & Hnl).
    rewrite E, readlines_append, foldl_app by done. simpl. rewrite <- E.
    fold records. unfold persisted_entry. simpl.
    apply truthy_true in Hne as Hne'. rewrite Hne'.
    destruct (truthy (strip title)) eqn:Et.
    + replace (id ++ bar :: strip title ++ linesep)
        with ((id ++ [bar] ++ strip title) ++ [LF])
        by (by rewrite <- !app_assoc).
      by rewrite load_line_id_title by (done || by apply trimmed_strip).
    + by rewrite load_line_id.
  - simpl. unfold persisted_entry. simpl.
    destruct (truthy (strip title)) eqn:Et.
    + rewrite readlines_append, foldl_app; [|done..|by apply truthy_true].
      simpl. fold records.
      by rewrite load_line_title by (done || by apply trimmed_strip).
    + by rewrite app_nil_r.
Qed.

Lemma append_then_load_is_memory_witness :
  let p := {| absolute := false; parts := [py "state.txt"] |} in
  let fs := {| files := {[ p := py "Lecture 0" ++ [LF] ]}; dirs := ∅ |} in
  let id := py "123E4567-e89b-12d3-a456-426614174000" in
  let records := @_load_scraped_records ascii_library fs (Some p) in
  let after :=
    @_append_scraped_record ascii_library records fs (Some p) (Some id)
      (py " Lecture 1 ") in
  @_load_scraped_records ascii_library after.2 (Some p) = after.1.
Proof.
  intros p fs id.
  apply (@append_then_load_is_memory ascii_library fs p (Some id)).
  - intros c Hc. vm_compute in Hc. injection Hc as <-. by left.
  - split; vm_compute; intros Hin;
      repeat (apply elem_of_cons in Hin as [Hin|Hin]; [done|]);
      by apply elem_of_nil in Hin.
  - vm_compute. reflexivity.
Defined.

(** X4.  Nothing is forgotten: after [append] of any identifier and any
    title to a state file that is absent, empty or ended by a line ending,
    the store loaded from the file has every identifier and every title
    that the store loaded before had. *)
Theorem append_keeps_loaded `{Library} records fs p video_id title
    (Hfile : ended (read_text fs p)) :
  let after := _append_scraped_record records fs (Some p) video_id title in
  ids (_load_scraped_records fs (Some p))
    ⊆ ids (_load_scraped_records after.2 (Some p))
  ∧ titles (_load_scraped_records fs (Some p))
    ⊆ titles (_load_scraped_records after.2 (Some p)).
Proof.
  cbv zeta. rewrite !load_unfold, append_read_text.
  destruct (readlines_app_ended _ (persisted_entry video_id (strip title))
              Hfile) as [after_cr ->].
  rewrite foldl_app. apply foldl_load_line_subseteq.
Qed.

Lemma append_keeps_loaded_witness :
  let p := {| absolute := false; parts := [py "state.txt"] |} in
  let fs := {| files := {[ p := py "Lecture 0" ++ [LF] ]}; dirs := ∅ |} in
  let after :=
    @_append_scraped_record ascii_library no_records fs (Some p) None
      (py "Part 1" ++ [LF] ++ py "Intro") in
  titles (@_load_scraped_records ascii_library fs (Some p))
    ⊆ titles (@_load_scraped_records ascii_library after.2 (Some p)).
Proof.
  intros p fs.
  apply (@append_keeps_loaded ascii_library no_records fs p None).
  intros c Hc. vm_compute in Hc. injection Hc as <-. by left.
Defined.

(** ** An identifier is recorded whatever the title *)

Lemma lstrip_by_app_keep p a c b :
  p c = false → lstrip_by p (a ++ c :: b) = lstrip_by p a ++ c :: b.
Proof.
  intros Hc. induction a as [|x a IH]; simpl; [by rewrite Hc|].
  by destruct (p x).
Qed.

Lemma rstrip_by_app_keep p s c w :
  p c = false → rstrip_by p (s ++ c :: w) = s ++ c :: rstrip_by p w.
Proof.
  intros Hc. unfold rstrip_by.
  rewrite reverse_app, reverse_cons, <- app_assoc. simpl.
  rewrite lstrip_by_app_keep by done.
  by rewrite reverse_app, reverse_cons, reverse_involutive, <- app_assoc.
Qed.

Lemma readlines_from_first_line s c : ∀ cur,
  one_line s → c = LF ∨ c = CR →
  readlines_from false cur (s ++ [c]) = [reverse cur ++ s ++ [LF]].
Proof.
  induction s as [|x s IH]; intros cur [Hlf Hcr] Hc; simpl.
  - rewrite reverse_cons. by destruct Hc as [-> | ->].
  - apply not_elem_of_cons in Hlf as [Hc1 Hlf].
    apply not_elem_of_cons in Hcr as [Hc2 Hcr].
    destruct (N.eqb_spec x LF); [done|]. destruct (N.eqb_spec x CR); [done|].
    simpl. rewrite IH by done. by rewrite reverse_cons, <- app_assoc.
Qed.

Lemma readlines_from_first_line_start s c after_cr rest :
  one_line s → s ≠ [] → c = LF ∨ c = CR →
  readlines_from after_cr [] (s ++ c :: rest) =
  (s ++ [LF]) :: readlines_from (c =? CR) [] rest.
Proof.
  intros Hs Hne Hc. rewrite readlines_from_ended by done.
  destruct s as [|x s]; [done|]. pose proof Hs as [Hlf Hcr].
  apply not_elem_of_cons in Hlf as [Hc1 Hlf].
  apply not_elem_of_cons in Hcr as [Hc2 Hcr]. simpl.
  destruct (N.eqb_spec x LF); [done|]. destruct (N.eqb_spec x CR); [done|].
  rewrite andb_false_r. simpl. by rewrite readlines_from_first_line.
Qed.

(** A text followed by a line feed begins with a line and its ending. *)
Lemma first_line_break t :
  ∃ t1 c t2, t ++ [LF] = t1 ++ c :: t2 ∧ one_line t1 ∧ (c = LF ∨ c = CR).
Proof.
  induction t as [|x t (t1 & c & t2 & E & [H1 H2] & Hc)].
  - exists [], LF, []. repeat split; try apply not_elem_of_nil. by left.
  - destruct (decide (x = LF ∨ x = CR)) as [Hx|Hx].
    + exists [], x, (t ++ [LF]). repeat split; try apply not_elem_of_nil.
      done.
    + exists (x :: t1), c, t2. simpl. rewrite E. split; [done|].
      split; [|done].
      split; apply not_elem_of_cons; (split; [|done]); intros <-; apply Hx;
        auto.
Qed.

Section Survives.
Context `{Library}.

Lemma load_line_id_any records id t1 :
  VIDEO_ID_fullmatch id = true →
  lower id ∈ ids (load_line records ((id ++ bar :: t1) ++ [LF])).
Proof.
  intros Hid. pose proof (id_trimmed _ Hid) as (Hne & Hh & _).
  unfold load_line.
  assert (Hstrip : strip ((id ++ bar :: t1) ++ [LF])
                   = id ++ bar :: rstrip_by is_space (t1 ++ [LF])).
  { unfold strip, strip_by. rewrite lstrip_by_id.
    - rewrite <- app_assoc. simpl. by rewrite rstrip_by_app_keep.
    - intros c Hc. apply Hh. by destruct id. }
  rewrite Hstrip.
  assert (Ht : truthy (id ++ bar :: rstrip_by is_space (t1 ++ [LF])) = true)
    by (by destruct id).
  rewrite Ht. simpl.
  rewrite split1_at by (apply id_no_char; auto). simpl.
  rewrite (strip_trimmed id) by (by apply id_trimmed). rewrite Hid.
  cbn [snd].
  destruct (truthy (strip (rstrip_by is_space (t1 ++ [LF]))));
    cbn [ids add_title add_id];
    apply elem_of_union; right; by apply elem_of_singleton.
Qed.

End Survives.

Lemma append_load_has_id `{Library} records fs p id title :
  VIDEO_ID_fullmatch id = true →
  ended (read_text fs p) →
  lower id ∈
  ids (_load_scraped_records
         (_append_scraped_record records fs (Some p) (Some id) title).2
         (Some p)).
Proof.
  intros Hid Hfile.
  rewrite load_unfold, append_read_text.
  destruct (readlines_app_ended _ (persisted_entry (Some id) (strip title))
              Hfile) as [after_cr ->].
  rewrite foldl_app.
  set (loaded := foldl load_line no_records (readlines (read_text fs p))).
  pose proof (id_trimmed _ Hid) as (Hne & _).
  unfold persisted_entry, linesep. simpl.
  apply truthy_true in Hne as Hne'. rewrite Hne'.
  destruct (truthy (strip title)).
  - destruct (first_line_break (strip title)) as (t1 & c & t2 & E & Ht1 & Hc).
    replace (id ++ bar :: strip title ++ [LF])
      with ((id ++ bar :: t1) ++ c :: t2)
      by (rewrite <- app_assoc; simpl; by rewrite E).
    rewrite readlines_from_first_line_start; [|..|done].
    + simpl. apply (foldl_load_line_subseteq _ _).
      by apply load_line_id_any.
    + assert (Hb : one_line (id ++ [bar] ++ t1))
        by (apply one_line_entry; [by apply id_one_line|done]).
      exact Hb.
    + by destruct id.
  - rewrite readlines_from_one_line_start;
      [|by apply id_one_line|done].
    simpl. rewrite load_line_id by done. simpl.
    apply elem_of_union. right. by apply elem_of_singleton.
Qed.

(** X5.  An identifier of the identifier shape that is appended to a state
    file which is absent, empty or ended by a line ending is among the
    identifiers loaded from the file afterwards, whatever the title is,
    line endings inside it included. *)
Theorem append_then_load_has_id `{Library} records fs p id title
    (Hid : VIDEO_ID_fullmatch id = true)
    (Hfile : ended (read_text fs p)) :
  lower id ∈
  ids (_load_scraped_records
         (_append_scraped_record records fs (Some p) (Some id) title).2
         (Some p)).
Proof. by apply append_load_has_id. Qed.

Lemma append_then_load_has_id_witness :
  let p := {| absolute := false; parts := [py "state.txt"] |} in
  let fs := {| files := ∅; dirs := ∅ |} in
  let id := py "123E4567-e89b-12d3-a456-426614174000" in
  @lower ascii_library id ∈
  ids (@_load_scraped_records ascii_library
         (@_append_scraped_record ascii_library no_records fs (Some p)
            (Some id) (py "Part 1" ++ [LF] ++ py "Intro")).2
         (Some p)).
Proof.
  intros p fs id.
  apply (@append_then_load_has_id ascii_library).
  - vm_compute. reflexivity.
  - intros c Hc. done.
Defined.

(** ** The alphabet of a slug *)

Lemma alnum_not_hyphen c : is_ascii_alnum c = true → is_hyphen c = false.
Proof.
  unfold is_ascii_alnum, is_ascii_alpha, is_ascii_upper, is_ascii_lower,
    is_ascii_digit, is_hyphen, hyphen.
  rewrite !orb_true_iff, !andb_true_iff, !N.leb_le, N.eqb_neq. lia.
Qed.

Lemma hyphen_not_alnum c : is_hyphen c = true → is_ascii_alnum c = false.
Proof.
  intros Hc. destruct (is_ascii_alnum c) eqn:E; [|done].
  apply alnum_not_hyphen in E. congruence.
Qed.

Lemma sub_non_alnum_head s c :
  head (sub_non_alnum true s) = Some c → is_hyphen c = false.
Proof.
  induction s as [|x s IH]; simpl; [done|].
  destruct (is_ascii_alnum x) eqn:E; [|done].
  intros [= <-]. by apply alnum_not_hyphen.
Qed.

Lemma hyphens_apart_cons c s :
  (∀ d, head s = Some d → is_hyphen c && is_hyphen d = false) →
  hyphens_apart s = true → hyphens_apart (c :: s) = true.
Proof.
  intros Hd Hs. destruct s as [|d s]; [done|].
  change (hyphens_apart (c :: d :: s))
    with (negb (is_hyphen c && is_hyphen d) && hyphens_apart (d :: s)).
  rewrite (Hd d eq_refl). by rewrite Hs.
Qed.

Lemma sub_non_alnum_apart s : ∀ in_run,
  hyphens_apart (sub_non_alnum in_run s) = true.
Proof.
  induction s as [|c s IH]; intros in_run; simpl; [done|].
  destruct (is_ascii_alnum c) eqn:E.
  - apply hyphens_apart_cons; [|apply IH]. intros d _.
    by rewrite (alnum_not_hyphen _ E).
  - destruct in_run; [apply IH|].
    apply hyphens_apart_cons; [|apply IH]. intros d Hd.
    apply sub_non_alnum_head in Hd. rewrite Hd. apply andb_false_r.
Qed.

Lemma hyphens_apart_app a b :
  hyphens_apart (a ++ b) = true →
  hyphens_apart a = true ∧ hyphens_apart b = true.
Proof.
  induction a as [|c a IH]; simpl; [done|].
  destruct a as [|d a].
  - simpl. destruct b; [done|]. by intros [_ ?]%andb_true_iff.
  - simpl in *. intros [H1 H2]%andb_true_iff.
    destruct (IH H2) as [H3 H4]. by rewrite H1, H3.
Qed.

Lemma slugify_apart text : hyphens_apart (_slugify text) = true.
Proof.
  rewrite slugify_unfold. simpl. destruct (truthy _); [|done].
  pose proof (sub_non_alnum_apart text false) as Hs.
  destruct (strip_by_decompose is_hyphen (sub_non_alnum false text))
    as (pre & suf & E & _).
  rewrite E in Hs. apply hyphens_apart_app in Hs as [_ Hs].
  apply hyphens_apart_app in Hs as [Hs _].
  rewrite <- (take_drop 80 (strip_by _ _)) in Hs.
  by apply hyphens_apart_app in Hs as [Hs _].
Qed.

(** X6.  A slug is made of ASCII letters, ASCII digits and hyphens only,
    so that it has no slash, dot or blank, and no two of its hyphens are
    next to each other. *)
Theorem slugify_alphabet text :
  Forall (λ c, is_ascii_alnum c = true ∨ c = hyphen) (_slugify text)
  ∧ hyphens_apart (_slugify text) = true
  ∧ (47 ∉ _slugify text) ∧ (46 ∉ _slugify text) ∧ (32 ∉ _slugify text).
Proof.
  pose proof (slugify_chars text) as Hc.
  assert (Hall : Forall (λ c, is_ascii_alnum c = true ∨ c = hyphen)
                   (_slugify text)).
  { eapply Forall_impl; [exact Hc|]. intros c. unfold is_slug_char, is_hyphen.
    rewrite orb_true_iff, N.eqb_eq. tauto. }
  split; [done|]. split; [apply slugify_apart|].
  rewrite Forall_forall in Hall.
  repeat split; intros Hin; apply Hall in Hin as [Hin|Hin]; done.
Qed.

(** ** Slugs of short texts are fixed *)

Lemma sub_non_alnum_true_eq s :
  (∀ c, head s = Some c → is_hyphen c = false) →
  Forall (λ c, is_slug_char c = true) s →
  sub_non_alnum true s = sub_non_alnum false s.
Proof.
  intros Hh Hs. destruct s as [|c s]; [done|]. simpl.
  apply Forall_cons in Hs as [Hc _]. unfold is_slug_char in Hc.
  rewrite (Hh c eq_refl), orb_false_r in Hc. by rewrite Hc.
Qed.

Lemma sub_non_alnum_fixed s :
  Forall (λ c, is_slug_char c = true) s →
  hyphens_apart s = true →
  sub_non_alnum false s = s.
Proof.
  induction s as [|c s IH]; intros Hs Ha; simpl; [done|].
  pose proof Hs as [Hc Hs']%Forall_cons.
  assert (Ha' : hyphens_apart s = true).
  { destruct s; [done|]. simpl in Ha. by apply andb_true_iff in Ha as [_ ?]. }
  destruct (is_ascii_alnum c) eqn:E; [by rewrite IH|].
  unfold is_slug_char in Hc. rewrite E in Hc. simpl in Hc.
  rewrite sub_non_alnum_true_eq, IH; try done.
  - f_equal. apply N.eqb_eq in Hc. done.
  - intros d Hd. destruct s as [|d' s]; [done|]. injection Hd as ->.
    simpl in Ha. apply andb_true_iff in Ha as [Ha _].
    rewrite Hc in Ha. simpl in Ha. by apply negb_true_iff in Ha.
Qed.

Lemma sub_non_alnum_length s : ∀ in_run,
  (length (sub_non_alnum in_run s) ≤ length s)%nat.
Proof.
  induction s as [|c s IH]; intros in_run; simpl; [done|].
  destruct (is_ascii_alnum c); simpl; [specialize (IH false); lia|].
  destruct in_run; simpl; [specialize (IH true)|specialize (IH true)]; lia.
Qed.

Lemma strip_by_length p s : (length (strip_by p s) ≤ length s)%nat.
Proof.
  destruct (strip_by_decompose p s) as (pre & suf & E & _).
  rewrite E at 2. rewrite !length_app. lia.
Qed.

(** X7.  On a text of at most 80 characters [_slugify] is idempotent: the
    slug of the slug is the slug. *)
Theorem slugify_idempotent text (Hlen : (length text ≤ 80)%nat) :
  _slugify (_slugify text) = _slugify text.
Proof.
  pose proof (slugify_chars text) as Hc.
  pose proof (slugify_apart text) as Ha.
  destruct (slugify_shape text) as (Hne & Hlen' & Hhead & Hlast).
  assert (Hshort :
    (length (strip_by is_hyphen (sub_non_alnum false text)) ≤ 80)%nat).
  { pose proof (strip_by_length is_hyphen (sub_non_alnum false text)).
    pose proof (sub_non_alnum_length text false). lia. }
  specialize (Hlast Hshort).
  rewrite (slugify_unfold (_slugify text)). cbv zeta.
  rewrite sub_non_alnum_fixed by done.
  rewrite strip_by_id.
  - rewrite take_ge by done. apply truthy_true in Hne. by rewrite Hne.
  - intros c Hh. unfold is_hyphen. apply N.eqb_neq. intros ->. done.
  - intros c Hl. unfold is_hyphen. apply N.eqb_neq. intros ->. done.
Qed.

Lemma slugify_idempotent_witness :
  _slugify (_slugify (py "Lecture 12: Intro!!"))
  = _slugify (py "Lecture 12: Intro!!").
Proof. apply slugify_idempotent. vm_compute. lia. Defined.

(** Beyond 80 characters the slug of a slug can differ from the slug. *)
Example slugify_not_idempotent :
  _slugify (_slugify (replicate 79 97 ++ py " b"))
  ≠ _slugify (replicate 79 97 ++ py " b").
Proof. vm_compute. discriminate. Qed.

(** ** The transcript file of a video *)

(** What [_build_transcript_path] returns, for the proofs below. *)
Lemma build_transcript_path_result fs output_dir title video_id :
  ∃ path,
    _build_transcript_path fs output_dir title video_id
    = (mkdir_parents fs output_dir, Some path)
    ∧ path_exists (mkdir_parents fs output_dir) path = false
    ∧ path_exists fs path = false.
Proof.
  set (base := base_name title video_id).
  set (base_path := joinpath output_dir (base ++ py ".txt")).
  set (fs1 := mkdir_parents fs output_dir).
  assert (Hbase : path_exists fs1 base_path = path_exists fs base_path)
    by (apply (candidate_exists_mkdir fs output_dir title video_id []);
        apply not_elem_of_nil).
  assert (Hnum : ∀ k, path_exists fs1 (numbered_path output_dir base k)
                      = path_exists fs (numbered_path output_dir base k)).
  { intros k. rewrite numbered_path_tail.
    apply (candidate_exists_mkdir fs output_dir title video_id).
    apply counter_tail_ok. }
  unfold _build_transcript_path. fold fs1 base base_path.
  rewrite next_free_path_S.
  destruct (path_exists fs1 base_path) eqn:Eb.
  - destruct (least_false
      (λ j, path_exists fs1 (numbered_path output_dir base (1 + N.of_nat j)))
      (S (entries fs1))) as [Hall|(n & Hn & Hfree & Hlt)].
    + pose proof (numbered_exist_bound fs1 output_dir title video_id
                    (S (entries fs1)) Hall). lia.
    + exists (numbered_path output_dir base (1 + N.of_nat n)).
      split; [|split; [done|by rewrite <- Hnum]].
      f_equal. apply next_free_path_numbered; [done..|lia].
  - exists base_path. split; [done|]. split; [done|]. by rewrite <- Hbase.
Qed.

Lemma path_exists_write_text fs path s :
  path_exists (write_text fs path s) path = true.
Proof.
  unfold path_exists. simpl. rewrite bool_decide_eq_true_2; [done|].
  apply elem_of_dom. rewrite lookup_insert_eq. by eexists.
Qed.

Lemma path_exists_false_files fs q :
  path_exists fs q = false → files fs !! q = None.
Proof.
  unfold path_exists. intros [Hf _]%orb_false_iff.
  apply bool_decide_eq_false in Hf. by apply not_elem_of_dom in Hf.
Qed.

(** X8.  Two transcripts do not share a file: when the file at the path
    that [_build_transcript_path] returned has been written, a second call
    with the same directory, title and identifier returns another path,
    which did not exist either. *)
Theorem build_transcript_path_twice fs output_dir title video_id text :
  ∃ path1 path2,
    let first := _build_transcript_path fs output_dir title video_id in
    let second :=
      _build_transcript_path (write_text first.1 path1 text) output_dir
        title video_id in
    first.2 = Some path1 ∧ second.2 = Some path2
    ∧ path1 ≠ path2
    ∧ path_exists fs path1 = false ∧ path_exists fs path2 = false
    ∧ read_text second.1 path1 = text.
Proof.
  destruct (build_transcript_path_result fs output_dir title video_id)
    as (path1 & E1 & Hnew1 & Hold1).
  destruct (build_transcript_path_result
              (write_text (mkdir_parents fs output_dir) path1 text)
              output_dir title video_id) as (path2 & E2 & _ & Hnew2).
  exists path1, path2. cbv zeta. rewrite E1. cbn [fst snd]. rewrite E2.
  cbn [fst snd].
  assert (Hne : path1 ≠ path2).
  { intros <-. by rewrite path_exists_write_text in Hnew2. }
  split; [done|]. split; [done|]. split; [done|]. split; [done|]. split.
  - unfold path_exists in *. simpl in Hnew2.
    apply orb_false_iff in Hnew2 as [Hf Hd].
    apply bool_decide_eq_false in Hf, Hd. apply orb_false_iff.
    split; apply bool_decide_eq_false.
    + intros Hin. apply Hf. rewrite dom_insert. apply elem_of_union. by right.
    + intros Hin. apply Hd. apply elem_of_union. by left.
  - unfold read_text. simpl. by rewrite lookup_insert_eq.
Qed.

(** X9.  Scraping one video always ends with a result.  The transcript
    goes to a path at which nothing existed; a file that existed before,
    other than the state file, is left as it was; the state file, if it
    existed, keeps its text as the beginning of its new text; and the store
    in memory is updated as by [append]. *)
Theorem save_transcript_frame `{Library} scraped_records fs output_dir
    state_path video transcript_elements :
  ∃ records' fs' transcript_path,
    save_transcript scraped_records fs output_dir state_path video
      transcript_elements
    = Some (records', fs', transcript_path)
    ∧ path_exists fs transcript_path = false
    ∧ (state_path ≠ Some transcript_path →
       files fs' !! transcript_path
       = Some (transcript_text transcript_elements))
    ∧ (∀ q (content : pystr),
         files fs !! q = Some content → state_path ≠ Some q →
         files fs' !! q = Some content)
    ∧ (∀ p (content : pystr),
         state_path = Some p → files fs !! p = Some content →
         ∃ more, files fs' !! p = Some (content ++ more))
    ∧ records' =
      (_append_scraped_record scraped_records fs None (video_id video)
         (if truthy (video_title video) then video_title video
          else py "Untitled Session")).1.
Proof.
  unfold save_transcript.
  set (title := default [] (or_else (Some (video_title video))
                                    (Some (py "Untitled Session")))).
  assert (Htitle : title = if truthy (video_title video)
                           then video_title video
                           else py "Untitled Session")
    by (unfold title, or_else; simpl; by destruct (truthy _)).
  destruct (build_transcript_path_result fs output_dir (Some title)
              (video_id video)) as (path & E & _ & Hnew).
  rewrite E. cbn [mbind option_bind].
  set (fs2 := write_text (mkdir_parents fs output_dir) path
                (transcript_text transcript_elements)).
  destruct (_append_scraped_record scraped_records fs2 state_path
              (video_id video) title) as [records' fs'] eqn:Ea.
  exists records', fs', path. split; [done|]. split; [done|].
  assert (Hrec : records' =
    (_append_scraped_record scraped_records fs None (video_id video)
       title).1).
  { change records' with (records', fs').1. rewrite <- Ea.
    by rewrite !append_records. }
  assert (Hfiles : ∀ q, state_path ≠ Some q →
            files fs' !! q = files fs2 !! q).
  { intros q Hq. change fs' with (records', fs').2. rewrite <- Ea.
    destruct state_path as [p|]; [|done]. rewrite append_files.
    destruct (_ || _); [|done]. rewrite lookup_insert_ne; [done|].
    intros ->. done. }
  pose proof (path_exists_false_files _ _ Hnew) as Hnone.
  split; [|split; [|split]].
  - intros Hp. rewrite Hfiles by done. simpl. by rewrite lookup_insert_eq.
  - intros q content Hq Hp. rewrite Hfiles by done. simpl.
    rewrite lookup_insert_ne; [done|]. intros <-. by rewrite Hnone in Hq.
  - intros p content -> Hp.
    assert (Hpp : p ≠ path) by (intros ->; by rewrite Hnone in Hp).
    change fs' with (records', fs').2. rewrite <- Ea, append_files.
    assert (Hread : read_text fs2 p = content).
    { unfold read_text, fs2, write_text, mkdir_parents. cbn [files].
      rewrite lookup_insert_ne by done. unfold pystr in Hp. by rewrite Hp. }
    destruct (_ || _).
    + rewrite lookup_insert_eq, Hread. by eexists.
    + simpl. rewrite lookup_insert_ne by done. exists [].
      by rewrite app_nil_r.
  - by rewrite Hrec, Htitle.
Qed.

(** ** The enumeration of the videos *)

Lemma row_title_stripped row link :
  strip (row_title row link) = row_title row link.
Proof.
  unfold row_title.
  destruct (row_title_element row) as [te|]; simpl;
    repeat (destruct (truthy _); simpl); apply strip_idemp.
Qed.

Section EnumerateFacts.
Context `{Library}.

(** What the loop keeps true of [videos] and [seen_ids]. *)
Lemma collect_videos_invariant video_rows : ∀ videos seen_ids result,
  collect_videos video_rows videos seen_ids = Ok result →
  NoDup (omap video_id videos) →
  (∀ i, i ∈ omap video_id videos → i ∈ seen_ids) →
  Forall (λ v, strip (video_title v) = video_title v
               ∧ ∀ i, video_id v = Some i → canonical_id i) videos →
  NoDup (omap video_id result)
  ∧ Forall (λ v, strip (video_title v) = video_title v
                 ∧ ∀ i, video_id v = Some i → canonical_id i) result
  ∧ (length result ≤ length videos + length video_rows)%nat
  ∧ videos `prefix_of` result.
Proof.
  induction video_rows as [|row rows IH]; intros videos seen_ids result;
    simpl.
  - intros [= <-] Hnd Hseen Hall. repeat split; try done. lia.
  - destruct (row_link row) as [link|].
    + destruct (_extract_video_id (href link)) as [video_id|e] eqn:Eid;
        [|done]. cbn [mbind result_bind].
      destruct (opt_truthy video_id
                && bool_decide (default [] video_id ∈ seen_ids)) eqn:Edup.
      * intros Hr Hnd Hseen Hall.
        destruct (IH _ _ _ Hr Hnd Hseen Hall) as (H1 & H2 & H3 & H4).
        repeat split; try done. lia.
      * intros Hr Hnd Hseen Hall.
        set (v := {| video_title := row_title row link;
                     video_url := href link; video_id := video_id |}) in *.
        assert (Hcanon : ∀ i, video_id = Some i → canonical_id i).
        { intros i ->. destruct (extract_video_id_result _ _ Eid)
            as (? & ? & _). by split. }
        assert (Htruthy : ∀ i, video_id = Some i → opt_truthy video_id = true).
        { intros i Hi. destruct (Hcanon i Hi) as [Hm _]. subst video_id.
          simpl. by apply VIDEO_ID_fullmatch_truthy. }
        destruct (IH (videos ++ [v])
                    (if opt_truthy video_id
                     then seen_ids ∪ {[default [] video_id]} else seen_ids)
                    result Hr) as (H1 & H2 & H3 & H4).
        -- rewrite omap_app. simpl. destruct video_id as [i|]; simpl.
           ++ apply NoDup_app. split; [done|]. split; [|apply NoDup_singleton].
              intros x Hx Hx'. apply list_elem_of_singleton in Hx' as ->.
              apply Hseen in Hx. rewrite (Htruthy i eq_refl) in Edup.
              simpl in Edup. by apply bool_decide_eq_false in Edup.
           ++ by rewrite app_nil_r.
        -- intros i. rewrite omap_app, elem_of_app. simpl.
           intros [Hi|Hi].
           ++ apply Hseen in Hi. destruct (opt_truthy video_id); [|done].
              apply elem_of_union. by left.
           ++ destruct video_id as [j|]; simpl in Hi;
                [|by apply elem_of_nil in Hi].
              apply list_elem_of_singleton in Hi as ->.
              rewrite (Htruthy j eq_refl). apply elem_of_union. right.
              by apply elem_of_singleton.
        -- apply Forall_app. split; [done|]. constructor; [|done].
           split; [apply row_title_stripped|done].
        -- repeat split; try done.
           ++ rewrite length_app in H3. simpl in H3. lia.
           ++ etrans; [|exact H4]. by apply prefix_app_r.
    + intros Hr Hnd Hseen Hall.
      destruct (IH _ _ _ Hr Hnd Hseen Hall) as (H1 & H2 & H3 & H4).
      repeat split; try done. lia.
Qed.

Lemma collect_videos_raises video_rows : ∀ videos seen_ids row link,
  row ∈ video_rows → row_link row = Some link →
  _extract_video_id (href link) = Raise ValueError →
  collect_videos video_rows videos seen_ids = Raise ValueError.
Proof.
  induction video_rows as [|r rows IH]; intros videos seen_ids row link Hin
    Hlink Hraise; [by apply elem_of_nil in Hin|].
  simpl. apply elem_of_cons in Hin as [<-|Hin].
  - by rewrite Hlink, Hraise.
  - destruct (row_link r) as [l|]; [|by eapply IH].
    destruct (_extract_video_id (href l)) as [id|[]]; [|done].
    cbn [mbind result_bind]. destruct (_ && _); by eapply IH.
Qed.

End EnumerateFacts.

(** X10.  When the enumeration of the rows returns, no two of the videos
    it collected have the same identifier; every video it collected has a
    trimmed title and an identifier that, when there is one, matches
    [VIDEO_ID_PATTERN] and is in lower case; and there are at most as many
    videos as rows. *)
Theorem collect_videos_distinct `{Library} video_rows videos
    (Hok : collect_videos video_rows [] ∅ = Ok videos) :
  NoDup (omap video_id videos)
  ∧ Forall (λ v, strip (video_title v) = video_title v
                 ∧ ∀ i, video_id v = Some i → canonical_id i) videos
  ∧ (length videos ≤ length video_rows)%nat.
Proof.
  destruct (collect_videos_invariant video_rows [] ∅ videos Hok)
    as (H1 & H2 & H3 & _); try done.
  - apply NoDup_nil_2.
  - intros i Hi. by apply elem_of_nil in Hi.
Qed.

Lemma collect_videos_distinct_witness :
  let link1 :=
    {| link_text := py " Lecture 1 ";
       href := Some (py "https://h.example/Panopto/Pages/Viewer.aspx?id=123E4567-e89b-12d3-a456-426614174000") |} in
  let link2 :=
    {| link_text := py "Lecture 1 (again)";
       href := Some (py "https://h.example/Panopto/Pages/Viewer.aspx?id=123e4567-e89b-12d3-a456-426614174000") |} in
  let rows :=
    [ {| row_link := Some link1; row_title_element := None |};
      {| row_link := None; row_title_element := None |};
      {| row_link := Some link2; row_title_element := None |} ] in
  let videos :=
    [ {| video_title := py "Lecture 1"; video_url := href link1;
         video_id := Some (py "123e4567-e89b-12d3-a456-426614174000") |} ] in
  @collect_videos ascii_library rows [] ∅ = Ok videos
  ∧ NoDup (omap video_id videos).
Proof.
  intros link1 link2 rows videos.
  assert (Hok : @collect_videos ascii_library rows [] ∅ = Ok videos)
    by (vm_compute; reflexivity).
  split; [exact Hok|].
  apply (@collect_videos_distinct ascii_library rows videos Hok).
Defined.

(** X11.  One link is enough to end the enumeration: when
    [_extract_video_id] raises on the address of the link of a row, the
    enumeration raises, whatever the other rows are. *)
Theorem collect_videos_raises_on_bad_link `{Library} video_rows row link
    (Hrow : row ∈ video_rows) (Hlink : row_link row = Some link)
    (Hraise : _extract_video_id (href link) = Raise ValueError) :
  collect_videos video_rows [] ∅ = Raise ValueError.
Proof. by eapply collect_videos_raises. Qed.

Lemma collect_videos_raises_on_bad_link_witness :
  let good :=
    {| row_link :=
         Some {| link_text := py "Lecture 1";
                 href := Some (py "https://h.example/v?id=1") |};
       row_title_element := None |} in
  let bad :=
    {| row_link :=
         Some {| link_text := py "Lecture 2"; href := Some (py "http://[") |};
       row_title_element := None |} in
  @collect_videos ascii_library [good; bad] [] ∅ = Raise ValueError.
Proof.
  intros good bad.
  apply (@collect_videos_raises_on_bad_link ascii_library [good; bad] bad
           {| link_text := py "Lecture 2"; href := Some (py "http://[") |}).
  - apply elem_of_cons. right. apply elem_of_cons. by left.
  - reflexivity.
  - vm_compute. reflexivity.
Defined.

(** ** From one run to the next *)

Section NextRun.
Context `{Library}.

Lemma save_transcript_unfold scraped_records fs output_dir p video
    transcript_elements records' fs' path :
  save_transcript scraped_records fs output_dir (Some p) video
    transcript_elements = Some (records', fs', path) →
  path_exists fs path = false
  ∧ (records', fs') =
    _append_scraped_record scraped_records
      (write_text (mkdir_parents fs output_dir) path
         (transcript_text transcript_elements))
      (Some p) (video_id video)
      (default [] (or_else (Some (video_title video))
                           (Some (py "Untitled Session")))).
Proof.
  unfold save_transcript.
  set (title := default [] (or_else (Some (video_title video))
                                    (Some (py "Untitled Session")))).
  destruct (build_transcript_path_result fs output_dir (Some title)
              (video_id video)) as (path' & E & _ & Hnew).
  rewrite E. cbn [mbind option_bind].
  destruct (_append_scraped_record _ _ _ _ _) as [r f] eqn:Ea.
  intros [= <- <- <-]. by rewrite Ea.
Qed.

Lemma read_text_write_text_ne fs path s q :
  q ≠ path → read_text (write_text fs path s) q = read_text fs q.
Proof.
  intros Hq. unfold read_text. simpl. by rewrite lookup_insert_ne.
Qed.

End NextRun.

(** X12.  A video with an identifier is not scraped twice: after its
    transcript has been saved with a state file that was absent, empty or
    ended by a line ending, and that is not the transcript file, the filter
    stage of the next run, on the store loaded from the state file, skips
    the video, whatever its title and its transcript are. *)
Theorem saved_video_is_skipped `{Library} scraped_records fs output_dir p
    video transcript_elements records' fs' path i
    (Hsave : save_transcript scraped_records fs output_dir (Some p) video
               transcript_elements = Some (records', fs', path))
    (Hpath : path ≠ p)
    (Hfile : ended (read_text fs p))
    (Hid : video_id video = Some i)
    (Hcanon : canonical_id i) :
  skipped (_load_scraped_records fs' (Some p)) video = true
  ∧ video ∉ videos_to_scrape (_load_scraped_records fs' (Some p)) [video].
Proof.
  apply save_transcript_unfold in Hsave as [_ Hsave].
  destruct Hcanon as [Hm Hl].
  assert (Hin : i ∈ ids (_load_scraped_records fs' (Some p))).
  { change fs' with (records', fs').2. rewrite Hsave, Hid, <- Hl at 1.
    apply append_load_has_id; [done|].
    rewrite read_text_write_text_ne by done. exact Hfile. }
  assert (Hskip : skipped (_load_scraped_records fs' (Some p)) video = true).
  { unfold skipped. rewrite Hid. simpl.
    rewrite (VIDEO_ID_fullmatch_truthy _ Hm).
    by rewrite bool_decide_eq_true_2. }
  split; [done|]. rewrite videos_to_scrape_filter. cbn [List.filter].
  rewrite Hskip. cbn [negb].
  apply not_elem_of_nil.
Qed.

Lemma saved_video_is_skipped_witness :
  let p := {| absolute := false; parts := [py "data"; py "state.txt"] |} in
  let d := {| absolute := false; parts := [py "transcripts"] |} in
  let fs := {| files := ∅; dirs := ∅ |} in
  let video :=
    {| video_title := py "Part 1" ++ [LF] ++ py "Intro";
       video_url := Some (py "https://h.example/v");
       video_id := Some (py "123e4567-e89b-12d3-a456-426614174000") |} in
  ∃ fs',
    (λ r, r.1.2) <$> @save_transcript ascii_library no_records fs d (Some p)
                       video [] = Some fs'
    ∧ skipped (@_load_scraped_records ascii_library fs' (Some p)) video
      = true.
Proof.
  intros p d fs video.
  destruct (@save_transcript ascii_library no_records fs d (Some p) video [])
    as [[[records' fs'] path]|] eqn:Hsave; [|by vm_compute in Hsave].
  exists fs'. split; [done|].
  eapply (@saved_video_is_skipped ascii_library); [exact Hsave|..].
  - intros ->. apply (f_equal (option_map snd)) in Hsave.
    vm_compute in Hsave. discriminate Hsave.
  - intros c Hc. done.
  - reflexivity.
  - split; vm_compute; reflexivity.
Defined.

(** X13.  A video without an identifier is not scraped twice when it has a
    title: after its transcript has been saved, with a state file as
    before, the filter stage of the next run skips it, provided the title
    is trimmed, has no line ending inside, and does not begin with an
    identifier followed by a bar or the end of the title. *)
Theorem saved_title_is_skipped `{Library} scraped_records fs output_dir p
    video transcript_elements records' fs' path
    (Hsave : save_transcript scraped_records fs output_dir (Some p) video
               transcript_elements = Some (records', fs', path))
    (Hpath : path ≠ p)
    (Hfile : ended (read_text fs p))
    (Hid : video_id video = None)
    (Htrim : trimmed (video_title video))
    (Hline : one_line (video_title video))
    (Hshape : VIDEO_ID_fullmatch (strip (split1 bar (video_title video)).1)
              = false) :
  skipped (_load_scraped_records fs' (Some p)) video = true.
Proof.
  apply save_transcript_unfold in Hsave as [_ Hsave].
  pose proof Htrim as (Hne & _). apply truthy_true in Hne.
  unfold or_else in Hsave. cbn [opt_truthy] in Hsave.
  rewrite Hne, Hid in Hsave. cbn [default from_option id] in Hsave.
  assert (Hin : video_title video ∈ titles (_load_scraped_records fs' (Some p))).
  { change fs' with (records', fs').2. rewrite Hsave.
    rewrite load_unfold, append_read_text.
    rewrite read_text_write_text_ne by done.
    rewrite (strip_trimmed _ Htrim). unfold persisted_entry. simpl.
    rewrite Hne.
    rewrite readlines_append, foldl_app; [|done..|by apply truthy_true].
    simpl. rewrite load_line_title by done. simpl.
    apply elem_of_union. right. by apply elem_of_singleton. }
  unfold skipped, or_else. rewrite Hid. simpl. rewrite Hne. simpl.
  by rewrite bool_decide_eq_true_2.
Qed.

Lemma saved_title_is_skipped_witness :
  let p := {| absolute := false; parts := [py "data"; py "state.txt"] |} in
  let d := {| absolute := false; parts := [py "transcripts"] |} in
  let fs := {| files := ∅; dirs := ∅ |} in
  let video :=
    {| video_title := py "Lecture 1 | Intro";
       video_url := Some (py "https://h.example/v");
       video_id := None |} in
  ∃ fs',
    (λ r, r.1.2) <$> @save_transcript ascii_library no_records fs d (Some p)
                       video [] = Some fs'
    ∧ skipped (@_load_scraped_records ascii_library fs' (Some p)) video
      = true.
Proof.
  intros p d fs video.
  destruct (@save_transcript ascii_library no_records fs d (Some p) video [])
    as [[[records' fs'] path]|] eqn:Hsave; [|by vm_compute in Hsave].
  exists fs'. split; [done|].
  eapply (@saved_title_is_skipped ascii_library); [exact Hsave|..].
  - intros ->. apply (f_equal (option_map snd)) in Hsave.
    vm_compute in Hsave. discriminate Hsave.
  - intros c Hc. done.
  - reflexivity.
  - split; [done|]. split; intros c Hc; vm_compute in Hc;
      injection Hc as <-; reflexivity.
  - split; vm_compute; intros Hin;
      repeat (apply elem_of_cons in Hin as [Hin|Hin]; [done|]);
      by apply elem_of_nil in Hin.
  - vm_compute. reflexivity.
Defined.

(** ** The lines that are kept *)

(** X14.  The lines of a transcript are the results of the cleaner on the
    elements, in the order of the elements; an element is left out exactly
    when the cleaner returns [None] for it. *)
Theorem transcript_lines_are_results `{Library} transcript_elements :
  transcript_lines transcript_elements
  = omap _extract_transcript_line transcript_elements.
Proof.
  unfold transcript_lines.
  enough (∀ acc,
    foldl (λ acc element,
             let line_text := _extract_transcript_line element in
             if opt_truthy line_text then acc ++ [default [] line_text]
             else acc) acc transcript_elements
    = acc ++ omap _extract_transcript_line transcript_elements) as Hgen
    by apply Hgen.
  induction transcript_elements as [|e es IH]; intros acc; simpl.
  - by rewrite app_nil_r.
  - rewrite IH.
    destruct (_extract_transcript_line e) as [r|] eqn:E; simpl; [|done].
    unfold _extract_transcript_line in E.
    rewrite clean_transcript_text_spec in E.
    apply cleanTranscriptLine_tidy in E as [(Hne & _) _].
    apply truthy_true in Hne. rewrite Hne. by rewrite <- app_assoc.
Qed.

(** ** The parent directory *)

Lemma self_in_lineage p : p ∈ lineage p.
Proof.
  unfold lineage. apply list_elem_of_fmap.
  exists (length (parts p)). split.
  - rewrite firstn_all. by destruct p.
  - apply elem_of_seq. lia.
Qed.

(** X15.  After [_ensure_parent_dir] the parent of the path exists; no file
    is touched and no directory is removed; and doing it again changes
    nothing. *)
Theorem ensure_parent_dir_exists fs path :
  path_exists (_ensure_parent_dir fs path) (parent path) = true
  ∧ files (_ensure_parent_dir fs path) = files fs
  ∧ dirs fs ⊆ dirs (_ensure_parent_dir fs path)
  ∧ _ensure_parent_dir (_ensure_parent_dir fs path) path
    = _ensure_parent_dir fs path.
Proof.
  assert (Hex : path_exists (_ensure_parent_dir fs path) (parent path) = true).
  { unfold _ensure_parent_dir.
    destruct (path_exists fs (parent path)) eqn:E; [done|]. simpl.
    unfold path_exists, mkdir_parents. cbn [files dirs].
    apply orb_true_iff. right. apply bool_decide_eq_true.
    apply elem_of_union. right. apply elem_of_list_to_set.
    apply self_in_lineage. }
  split; [done|]. split; [apply files_ensure_parent_dir|]. split.
  - unfold _ensure_parent_dir. destruct (negb _); [|done].
    apply union_subseteq_l.
  - unfold _ensure_parent_dir at 1. by rewrite Hex.
Qed.
